(** * MISupperCut: scene curation (sequence_selection.py, action_recognition.py)

    A shallow embedding of the selection pipeline of [SequenceSelection]
    (filter, rank, diversity balancing, duration packing) and of the
    multi-window aggregation of [ActionRecognition.analyze_scene]; further
    on, of [classify_action]'s class-name mapping, of
    [SceneDetection.get_scene_info] and [filter_scenes_by_duration], of the
    control flow of main.py and of the transition loop of
    [VideoEditing.create_supercut], with the video libraries as parameters.

    Conventions of the embedding.
    - A scene is a Python dict used as a record; every key the code reads
      with [.get(key, default)] may be absent, so every field is an
      [option] and the accessor [get_*] supplies the code's default.
    - Python floats (durations, confidences, times) are read as exact
      rationals [Q]; comparisons are the boolean comparisons of [Q]. The
      packing loop is the one place of the selection where a decision is
      taken on a rounded sum and a rounded product; it is embedded a second
      time on binary64 values ([Binary64], primitive floats with the
      operations of IEEE 754), and what depends on where its thresholds
      fall is stated there.
    - Python ints that are parameters ([max_per_type], [min_per_type]) are
      [Z]; slices follow Python and accept negative bounds.
    - The builtin [sorted(..., key=..., reverse=True)] is a stable sort in
      descending key order; [max(..., key=...)] returns the first maximal
      element and raises [ValueError] on an empty list.
    - [scenes_by_type] is a dict iterated in insertion order: an
      association list.
    - Logging is the only effect of the selection pipeline; it is modelled
      by the list of records each call emits. *)

From Stdlib Require Import String List ZArith QArith Qround Lqa Lia Bool.
From Stdlib Require Import Permutation Sorted.
From Stdlib Require Import Ascii DecimalString.
From Stdlib Require Import PrimFloat.
From Stdlib Require SpecFloat FloatOps FloatAxioms.
Import ListNotations.

Set Warnings "-inexact-float".

Open Scope Q_scope.

(** ** Python builtins used by the code *)

Definition Qlt_bool (x y : Q) : bool := negb (Qle_bool y x).

(** [min(x, y)] *)
Definition py_min (x y : Q) : Q := if Qlt_bool y x then y else x.

(** [int(x)] on a float: truncation toward zero. *)
Definition py_int (x : Q) : Z := Z.quot (Qnum x) (Zpos (Qden x)).

(** [l[:k]] *)
Definition slice_to {A} (k : Z) (l : list A) : list A :=
  if (0 <=? k)%Z then firstn (Z.to_nat k) l
  else firstn (length l - Z.to_nat (- k)) l.

(** [l[k:]] *)
Definition slice_from {A} (k : Z) (l : list A) : list A :=
  if (0 <=? k)%Z then skipn (Z.to_nat k) l
  else skipn (length l - Z.to_nat (- k)) l.

(** [sorted(l, key=key, reverse=True)]: stable, descending. The element
    being inserted preceded, in the input, every element already placed,
    so it goes in front of the first element whose key is not larger. *)
Fixpoint insert_desc {A} (key : A -> Q) (x : A) (l : list A) : list A :=
  match l with
  | [] => [x]
  | y :: l' =>
      if Qle_bool (key y) (key x) then x :: y :: l'
      else y :: insert_desc key x l'
  end.

Fixpoint sorted_desc {A} (key : A -> Q) (l : list A) : list A :=
  match l with
  | [] => []
  | x :: l' => insert_desc key x (sorted_desc key l')
  end.

(** [max(l, key=key)] with the running best [best]: a later element
    replaces it only when its key is strictly larger. *)
Fixpoint max_from {A} (key : A -> Q) (best : A) (l : list A) : A :=
  match l with
  | [] => best
  | x :: l' => max_from key (if Qlt_bool (key best) (key x) then x else best) l'
  end.

Inductive exn : Type :=
  | KeyError (key : string)
  | ValueError (msg : string).

Inductive result (A : Type) : Type :=
  | Returned (a : A)
  | Raised (e : exn).
Arguments Returned {A} a.
Arguments Raised {A} e.

Definition py_max {A} (key : A -> Q) (l : list A) : result A :=
  match l with
  | [] => Raised (ValueError "max() arg is an empty sequence")
  | x :: l' => Returned (max_from key x l')
  end.

(** ** Data model *)

(** The dict returned by [classify_action]. *)
Record classification : Type := mkClassification {
  cls_action_type : string;
  cls_confidence : Q;
  cls_is_action : bool;
  cls_all_scores : list (string * Q)
}.

(** The scene dict. *)
Record scene : Type := mkScene {
  scene_number : option Z;
  start_frame : option Z;
  end_frame : option Z;
  video_path : option string;
  start_time : option Q;
  end_time : option Q;
  duration : option Q;
  action_type : option string;
  action_confidence : option Q;
  is_action_scene : option bool;
  segment_results : option (list classification);
  all_scores : option (list (string * Q))
}.

Definition get {A} (field : option A) (default : A) : A :=
  match field with
  | Some v => v
  | None => default
  end.

Definition get_is_action_scene (s : scene) : bool := get (is_action_scene s) false.
Definition get_action_confidence (s : scene) : Q := get (action_confidence s) 0.
Definition get_duration (s : scene) : Q := get (duration s) 0.
Definition get_action_type (s : scene) : string := get (action_type s) "unknown"%string.

(** The segment dict built by [get_supercut_segments]. *)
Record segment : Type := mkSegment {
  seg_video_path : string;
  seg_start_time : Q;
  seg_end_time : Q;
  seg_action_type : string;
  seg_action_confidence : Q
}.

(** ** SequenceSelection *)

(** The condition of the comprehension in [filter_action_scenes]. *)
Definition keeps (min_confidence min_duration max_duration : Q) (s : scene) : bool :=
  get_is_action_scene s
  && Qle_bool min_confidence (get_action_confidence s)
  && (Qle_bool min_duration (get_duration s)
      && Qle_bool (get_duration s) max_duration).

Definition filter_action_scenes (scenes : list scene)
    (min_confidence min_duration max_duration : Q) : list scene :=
  filter (keeps min_confidence min_duration max_duration) scenes.

Definition rank_scenes_by_action_intensity (scenes : list scene) : list scene :=
  sorted_desc get_action_confidence scenes.

(** [Counter(action_types)]: one entry per distinct key, in order of first
    appearance. *)
Fixpoint counter_add (k : string) (c : list (string * nat)) : list (string * nat) :=
  match c with
  | [] => [(k, 1%nat)]
  | (k', n) :: c' =>
      if String.eqb k k' then (k', S n) :: c' else (k', n) :: counter_add k c'
  end.

Definition Counter (keys : list string) : list (string * nat) :=
  fold_left (fun c k => counter_add k c) keys [].

(** The value of [max_per_type] after the [if max_per_type is None] block. *)
Definition resolve_max_per_type (scenes : list scene)
    (max_per_type : option Z) (min_per_type : Z) : Z :=
  match max_per_type with
  | Some m => m
  | None =>
      let type_counter := Counter (map get_action_type scenes) in
      if (0 <? length type_counter)%nat then
        let avg_per_type :=
          inject_Z (Z.of_nat (length scenes)) / inject_Z (Z.of_nat (length type_counter)) in
        Z.max (py_int (avg_per_type * (3 # 2))) (min_per_type + 1)
      else Z.of_nat (length scenes)
  end.

(** One iteration of the grouping loop: [scenes_by_type[action_type].append(scene)],
    creating the entry at the end of the dict when the key is new. *)
Fixpoint group_append (k : string) (s : scene) (groups : list (string * list scene))
    : list (string * list scene) :=
  match groups with
  | [] => [(k, [s])]
  | (k', l) :: groups' =>
      if String.eqb k k' then (k', l ++ [s]) :: groups'
      else (k', l) :: group_append k s groups'
  end.

Definition group_by_type (scenes : list scene) : list (string * list scene) :=
  fold_left (fun groups s => group_append (get_action_type s) s groups) scenes [].

(** First loop over [scenes_by_type.items()]: [balanced_scenes] after the
    loop, and the dict after the loop (same keys, same order). *)
Definition floor_pass (min_per_type : Z) (groups : list (string * list scene))
    : list scene * list (string * list scene) :=
  fold_left
    (fun (acc : list scene * list (string * list scene)) (g : string * list scene) =>
       let type_scenes := sorted_desc get_action_confidence (snd g) in
       (fst acc ++ slice_to min_per_type type_scenes,
        snd acc ++ [(fst g, slice_from min_per_type type_scenes)]))
    groups ([], []).

(** Second loop: [remaining_scenes] before it is sorted. *)
Definition ceiling_pass (max_per_type min_per_type : Z)
    (groups : list (string * list scene)) : list scene :=
  fold_left
    (fun (remaining_scenes : list scene) (g : string * list scene) =>
       let can_add := (max_per_type - min_per_type)%Z in
       if (0 <? can_add)%Z then remaining_scenes ++ slice_to can_add (snd g)
       else remaining_scenes)
    groups [].

Definition ensure_action_diversity (scenes : list scene)
    (max_per_type : option Z) (min_per_type : Z) : list scene :=
  let max_per_type := resolve_max_per_type scenes max_per_type min_per_type in
  let scenes_by_type := group_by_type scenes in
  let '(balanced_scenes, scenes_by_type) := floor_pass min_per_type scenes_by_type in
  let remaining_scenes := ceiling_pass max_per_type min_per_type scenes_by_type in
  let remaining_scenes := sorted_desc get_action_confidence remaining_scenes in
  balanced_scenes ++ remaining_scenes.

(** State of the packing loop: the two locals it updates, and whether
    [break] has been executed. *)
Record pack_state : Type := mkPack {
  final_selection : list scene;
  current_duration : Q;
  stopped : bool
}.

Definition pack_init : pack_state :=
  {| final_selection := []; current_duration := 0; stopped := false |}.

(** The body of [for scene in selected_scenes], overflow factor 1.2, in
    exact arithmetic: it takes the code's decisions wherever the sums and
    the product [target_duration * 1.2] are exact in binary64. The body on
    binary64 values is [Binary64.pack_step]. *)
Definition pack_step (target_duration : Q) (st : pack_state) (s : scene) : pack_state :=
  if stopped st then st
  else
    let scene_duration := get_duration s in
    if Qlt_bool (target_duration * (12 # 10)) (current_duration st + scene_duration)
    then st
    else
      let total := current_duration st + scene_duration in
      {| final_selection := final_selection st ++ [s];
         current_duration := total;
         stopped := Qle_bool target_duration total |}.

Definition pack_loop (target_duration : Q) (selected_scenes : list scene)
    (st : pack_state) : pack_state :=
  fold_left (pack_step target_duration) selected_scenes st.

(** Everything after the filter, for a non-empty filtered list. *)
Definition select_state (filtered_scenes : list scene) (target_duration : Q)
    (ensure_diversity : bool) (max_per_type : option Z) : pack_state :=
  let ranked_scenes := rank_scenes_by_action_intensity filtered_scenes in
  let selected_scenes :=
    if ensure_diversity then ensure_action_diversity ranked_scenes max_per_type 1
    else ranked_scenes in
  pack_loop target_duration selected_scenes pack_init.

Definition select_sequences_for_supercut (scenes : list scene)
    (target_duration min_confidence min_duration max_duration : Q)
    (ensure_diversity : bool) (max_per_type : option Z) : list scene :=
  let filtered_scenes :=
    filter_action_scenes scenes min_confidence min_duration max_duration in
  match filtered_scenes with
  | [] => []
  | _ :: _ =>
      final_selection
        (select_state filtered_scenes target_duration ensure_diversity max_per_type)
  end.

(** The total the function reports when it returns: [current_duration] as
    logged on the last line, [0] on the early return (nothing selected). *)
Definition achieved_duration (scenes : list scene)
    (target_duration min_confidence min_duration max_duration : Q)
    (ensure_diversity : bool) (max_per_type : option Z) : Q :=
  let filtered_scenes :=
    filter_action_scenes scenes min_confidence min_duration max_duration in
  match filtered_scenes with
  | [] => 0
  | _ :: _ =>
      current_duration
        (select_state filtered_scenes target_duration ensure_diversity max_per_type)
  end.

(** *** The packing loop on binary64 values

    The loop reads one entry of a scene, ['duration'], and computes with
    Python floats: [+], [*], [>] and [>=] are the binary64 operations,
    rounding to nearest, ties to even. [x > y] is [y <? x] and [x >= y]
    is [y <=? x]; both are false when an operand is a NaN. The scene dict
    is a parameter, with its ['duration'] entry. *)
Module Binary64.
Section Packing.
Local Open Scope float_scope.

Variable scene : Type.
Variable duration : scene -> option float.

(** [scene.get('duration', 0.0)] *)
Definition get_duration (s : scene) : float :=
  match duration s with Some d => d | None => 0 end.

(** The two locals the loop updates, and whether [break] has been
    executed. *)
Record pack_state : Type := mkPack {
  final_selection : list scene;
  current_duration : float;
  stopped : bool
}.

Definition pack_init : pack_state :=
  {| final_selection := []; current_duration := 0; stopped := false |}.

(** The body of [for scene in selected_scenes]. *)
Definition pack_step (target_duration : float) (st : pack_state) (s : scene) : pack_state :=
  if stopped st then st
  else
    let scene_duration := get_duration s in
    if target_duration * 1.2 <? current_duration st + scene_duration
    then st
    else
      let total := current_duration st + scene_duration in
      {| final_selection := final_selection st ++ [s];
         current_duration := total;
         stopped := (target_duration <=? total) |}.

Definition pack_loop (target_duration : float) (selected_scenes : list scene)
    (st : pack_state) : pack_state :=
  fold_left (pack_step target_duration) selected_scenes st.

(** The loop from its initial state: [final_selection] is what the
    function returns, [current_duration] the total it logs. On an empty
    list it gives what the early return gives. *)
Definition pack (target_duration : float) (selected_scenes : list scene) : pack_state :=
  pack_loop target_duration selected_scenes pack_init.

(** The durations of a list of scenes, added left to right from [0.0] as
    the loop adds them. *)
Definition total_duration (l : list scene) : float :=
  fold_left (fun acc s => acc + get_duration s) l 0.

(** What one iteration maintains: the running total is the sum of the
    accepted durations; once a scene has been accepted the total is not
    above the bound; the loop has stopped exactly when an accepted scene
    brought the total to the target. *)
Definition pack_inv (target_duration : float) (st : pack_state) : Prop :=
  current_duration st = total_duration (final_selection st)
  /\ (final_selection st <> [] ->
      (target_duration * 1.2 <? current_duration st) = false)
  /\ (stopped st = false -> final_selection st <> [] ->
      (target_duration <=? current_duration st) = false)
  /\ (stopped st = true -> (target_duration <=? current_duration st) = true)
  /\ (forall p q, final_selection st = p ++ q -> p <> [] -> q <> [] ->
      (target_duration <=? total_duration p) = false).

End Packing.

Arguments final_selection {scene}.
Arguments current_duration {scene}.
Arguments stopped {scene}.
Arguments pack_init {scene}.
Arguments get_duration {scene}.
Arguments pack_step {scene}.
Arguments pack_loop {scene}.
Arguments pack {scene}.
Arguments total_duration {scene}.
Arguments pack_inv {scene}.
End Binary64.

Definition get_supercut_segments (selected_scenes : list scene) : list segment :=
  map (fun s =>
         {| seg_video_path := get (video_path s) ""%string;
            seg_start_time := get (start_time s) 0;
            seg_end_time := get (end_time s) 0;
            seg_action_type := get_action_type s;
            seg_action_confidence := get_action_confidence s |})
      selected_scenes.

(** *** Log records

    One constructor per [logger] call of sequence_selection.py, with the
    values the message interpolates. *)
Inductive log_record : Type :=
  | LogFiltered (n_scenes n_filtered : nat) (min_confidence min_duration max_duration : Q)
  | LogNoScenesMatch
  | LogRanked (n_scenes : nat)
  | LogDistribution (type_counter : list (string * nat))
  | LogMaxPerType (max_per_type : Z)
  | LogBalanced (n_scenes : nat)
  | LogSelected (n_scenes : nat) (total target_duration : Q).

Definition filter_action_scenes_log (scenes : list scene)
    (min_confidence min_duration max_duration : Q) : list log_record :=
  [LogFiltered (length scenes)
     (length (filter_action_scenes scenes min_confidence min_duration max_duration))
     min_confidence min_duration max_duration].

Definition rank_scenes_by_action_intensity_log (scenes : list scene) : list log_record :=
  [LogRanked (length scenes)].

Definition ensure_action_diversity_log (scenes : list scene)
    (max_per_type : option Z) (min_per_type : Z) : list log_record :=
  let type_counter := Counter (map get_action_type scenes) in
  [LogDistribution type_counter]
  ++ match max_per_type with
     | Some _ => []
     | None =>
         if (0 <? length type_counter)%nat
         then [LogMaxPerType (resolve_max_per_type scenes None min_per_type)]
         else []
     end
  ++ [LogBalanced (length (ensure_action_diversity scenes max_per_type min_per_type))].

(** A call of [select_sequences_for_supercut] as the caller observes it:
    the log records in emission order, and how the call ends. *)
Definition select_sequences_for_supercut_run (scenes : list scene)
    (target_duration min_confidence min_duration max_duration : Q)
    (ensure_diversity : bool) (max_per_type : option Z)
    : list log_record * result (list scene) :=
  let filtered_scenes :=
    filter_action_scenes scenes min_confidence min_duration max_duration in
  let log := filter_action_scenes_log scenes min_confidence min_duration max_duration in
  match filtered_scenes with
  | [] => (log ++ [LogNoScenesMatch], Returned [])
  | _ :: _ =>
      let ranked_scenes := rank_scenes_by_action_intensity filtered_scenes in
      let log := log ++ rank_scenes_by_action_intensity_log filtered_scenes in
      let log :=
        if ensure_diversity
        then log ++ ensure_action_diversity_log ranked_scenes max_per_type 1
        else log in
      let st := select_state filtered_scenes target_duration ensure_diversity max_per_type in
      (log ++ [LogSelected (length (final_selection st)) (current_duration st) target_duration],
       Returned (final_selection st))
  end.

(** ** ActionRecognition.analyze_scene *)

(** The [while current_time < end_time - 1.0] loop that cuts a scene into
    windows of [segment_duration = 5.0]. Each iteration moves
    [current_time] forward by more than one second, so
    [ceil(end_time - current_time)] iterations are enough; [window_fuel]
    is that bound. *)
Definition window_fuel (current_time end_time : Q) : nat :=
  Z.to_nat (Qceiling (end_time - current_time)).

Fixpoint windows_from (fuel : nat) (current_time end_time : Q) : list (Q * Q) :=
  if Qlt_bool current_time (end_time - 1) then
    match fuel with
    | O => []
    | S fuel' =>
        let segment_end := py_min (current_time + 5) end_time in
        (current_time, segment_end) :: windows_from fuel' segment_end end_time
    end
  else [].

Definition windows (start_time end_time : Q) : list (Q * Q) :=
  windows_from (window_fuel start_time end_time) start_time end_time.

Section ActionRecognition.

(** [classify_action] runs the video model; here it is any function of
    the path and the time range. *)
Variable classify_action : string -> Q -> Q -> classification.

Definition analyze_scene (path : string) (scene_info : scene) : result scene :=
  match start_time scene_info with
  | None => Raised (KeyError "start_time")
  | Some t0 =>
  match end_time scene_info with
  | None => Raised (KeyError "end_time")
  | Some t1 =>
  match duration scene_info with
  | None => Raised (KeyError "duration")
  | Some d =>
      if Qlt_bool 10 d then
        let segments := windows t0 t1 in
        let results := map (fun seg => classify_action path (fst seg) (snd seg)) segments in
        match py_max cls_confidence results with
        | Raised e => Raised e
        | Returned best_segment =>
            Returned
              {| scene_number := scene_number scene_info;
                 start_frame := start_frame scene_info;
                 end_frame := end_frame scene_info;
                 video_path := video_path scene_info;
                 start_time := start_time scene_info;
                 end_time := end_time scene_info;
                 duration := duration scene_info;
                 action_type := Some (cls_action_type best_segment);
                 action_confidence := Some (cls_confidence best_segment);
                 is_action_scene := Some (cls_is_action best_segment);
                 segment_results := Some results;
                 all_scores := all_scores scene_info |}
        end
      else
        let r := classify_action path t0 t1 in
        Returned
          {| scene_number := scene_number scene_info;
             start_frame := start_frame scene_info;
             end_frame := end_frame scene_info;
             video_path := video_path scene_info;
             start_time := start_time scene_info;
             end_time := end_time scene_info;
             duration := duration scene_info;
             action_type := Some (cls_action_type r);
             action_confidence := Some (cls_confidence r);
             is_action_scene := Some (cls_is_action r);
             segment_results := segment_results scene_info;
             all_scores := Some (cls_all_scores r) |}
  end end end.

End ActionRecognition.

(** ** ActionRecognition.classify_action

    The video model is external: [top5] stands for what frame extraction
    and the model answer for a path and a time range, [None] when no frame
    could be extracted, otherwise the five most probable class indices
    with their probabilities. What [classify_action] does with that answer
    is modelled as written. *)

Definition ACTION_CATEGORIES : list (string * list string) :=
  [("chase", ["running"; "jogging"; "sprinting"; "chasing"]);
   ("fight", ["punching"; "kicking"; "martial_arts"; "boxing"; "wrestling"]);
   ("explosion", ["explosion"; "fire"; "smoke"]);
   ("vehicle", ["driving_car"; "motorcycle"; "car_racing"; "helicopter"]);
   ("stunts", ["parkour"; "climbing"; "jumping"; "falling"]);
   ("shooting", ["shooting"; "aiming"; "gun"; "rifle"])]%string.

(** [sub in s] on strings. *)
Fixpoint str_in (sub s : string) : bool :=
  String.prefix sub s
  || match s with
     | EmptyString => false
     | String _ s' => str_in sub s'
     end.

(** [f"class_{class_idx}"] *)
Definition class_name (class_idx : Z) : string :=
  ("class_" ++ NilZero.string_of_int (Z.to_int class_idx))%string.

(** The loop over [ACTION_CATEGORIES.items()] up to its [break]: the first
    category one of whose keywords occurs in the class name. *)
Fixpoint matching_category (name : string) (categories : list (string * list string))
    : option string :=
  match categories with
  | [] => None
  | (category, keywords) :: rest =>
      if existsb (fun keyword => str_in keyword name) keywords then Some category
      else matching_category name rest
  end.

(** [action_scores[category] += prob], for a category of the dict. *)
Fixpoint add_score (category : string) (prob : Q) (action_scores : list (string * Q))
    : list (string * Q) :=
  match action_scores with
  | [] => []
  | (k, v) :: rest =>
      if String.eqb k category then (k, v + prob) :: rest
      else (k, v) :: add_score category prob rest
  end.

(** [action_scores] after the loop over the top classes. *)
Definition score_classes (top : list (Z * Q)) : list (string * Q) :=
  fold_left
    (fun action_scores cp =>
       match matching_category (class_name (fst cp)) ACTION_CATEGORIES with
       | Some category => add_score category (snd cp) action_scores
       | None => action_scores
       end)
    top (map (fun c => (fst c, 0)) ACTION_CATEGORIES).

Module Recognition.

(** The dict [classify_action] returns; the early returns build it without
    the key ['all_scores']. *)
Record result_dict : Type := mkResult {
  res_action_type : string;
  res_confidence : Q;
  res_is_action : bool;
  res_all_scores : option (list (string * Q))
}.

(** The record kept in [segment_results]. The code modelled here never
    reads it again; an absent ['all_scores'] is kept as the empty list,
    which no result with scores has. *)
Definition stored (r : result_dict) : classification :=
  {| cls_action_type := res_action_type r;
     cls_confidence := res_confidence r;
     cls_is_action := res_is_action r;
     cls_all_scores := get (res_all_scores r) [] |}.

Section WithModel.

Variable top5 : string -> Q -> Q -> option (list (Z * Q)).

Definition classify_action (path : string) (t0 t1 : Q) : result result_dict :=
  match top5 path t0 t1 with
  | None =>
      Returned {| res_action_type := "unknown"; res_confidence := 0;
                  res_is_action := false; res_all_scores := None |}
  | Some top =>
      let action_scores := score_classes top in
      match py_max snd action_scores with
      | Raised e => Raised e
      | Returned top_action =>
          Returned {| res_action_type := fst top_action;
                      res_confidence := snd top_action;
                      res_is_action := Qlt_bool (3 # 10) (snd top_action);
                      res_all_scores := Some action_scores |}
      end
  end.

(** The loop [for seg_start, seg_end in segments]. *)
Fixpoint classify_all (path : string) (segments : list (Q * Q))
    : result (list result_dict) :=
  match segments with
  | [] => Returned []
  | seg :: rest =>
      match classify_action path (fst seg) (snd seg) with
      | Raised e => Raised e
      | Returned r =>
          match classify_all path rest with
          | Raised e => Raised e
          | Returned segment_results => Returned (r :: segment_results)
          end
      end
  end.

(** [analyze_scene] with the class's own [classify_action]. *)
Definition analyze_scene (path : string) (scene_info : scene) : result scene :=
  match start_time scene_info with
  | None => Raised (KeyError "start_time")
  | Some t0 =>
  match end_time scene_info with
  | None => Raised (KeyError "end_time")
  | Some t1 =>
  match duration scene_info with
  | None => Raised (KeyError "duration")
  | Some d =>
      if Qlt_bool 10 d then
        match classify_all path (windows t0 t1) with
        | Raised e => Raised e
        | Returned results =>
            match py_max res_confidence results with
            | Raised e => Raised e
            | Returned best_segment =>
                Returned
                  {| scene_number := scene_number scene_info;
                     start_frame := start_frame scene_info;
                     end_frame := end_frame scene_info;
                     video_path := video_path scene_info;
                     start_time := start_time scene_info;
                     end_time := end_time scene_info;
                     duration := duration scene_info;
                     action_type := Some (res_action_type best_segment);
                     action_confidence := Some (res_confidence best_segment);
                     is_action_scene := Some (res_is_action best_segment);
                     segment_results := Some (map stored results);
                     all_scores := all_scores scene_info |}
            end
        end
      else
        match classify_action path t0 t1 with
        | Raised e => Raised e
        | Returned r =>
            match res_all_scores r with
            | None => Raised (KeyError "all_scores")
            | Some scores =>
                Returned
                  {| scene_number := scene_number scene_info;
                     start_frame := start_frame scene_info;
                     end_frame := end_frame scene_info;
                     video_path := video_path scene_info;
                     start_time := start_time scene_info;
                     end_time := end_time scene_info;
                     duration := duration scene_info;
                     action_type := Some (res_action_type r);
                     action_confidence := Some (res_confidence r);
                     is_action_scene := Some (res_is_action r);
                     segment_results := segment_results scene_info;
                     all_scores := Some scores |}
            end
        end
  end end end.

End WithModel.

End Recognition.

(** ** SceneDetection *)

(** A [FrameTimecode] as the code reads it. *)
Record timecode : Type := mkTimecode {
  get_frames : Z;
  get_seconds : Q
}.

(** [get_scene_info], the loop over [enumerate(scene_list)] from index [i]. *)
Fixpoint get_scene_info_from (i : Z) (scene_list : list (timecode * timecode))
    : list scene :=
  match scene_list with
  | [] => []
  | boundaries :: rest =>
      {| scene_number := Some (i + 1)%Z;
         start_frame := Some (get_frames (fst boundaries));
         end_frame := Some (get_frames (snd boundaries));
         video_path := None;
         start_time := Some (get_seconds (fst boundaries));
         end_time := Some (get_seconds (snd boundaries));
         duration := Some (get_seconds (snd boundaries) - get_seconds (fst boundaries));
         action_type := None; action_confidence := None; is_action_scene := None;
         segment_results := None; all_scores := None |}
      :: get_scene_info_from (i + 1) rest
  end.

Definition get_scene_info (scene_list : list (timecode * timecode)) : list scene :=
  get_scene_info_from 0 scene_list.

(** The comprehension reads [scene['duration']]: the first scene without
    the key raises. *)
Fixpoint filter_scenes_by_duration (scene_info : list scene)
    (min_duration max_duration : Q) : result (list scene) :=
  match scene_info with
  | [] => Returned []
  | s :: rest =>
      match duration s with
      | None => Raised (KeyError "duration")
      | Some d =>
          match filter_scenes_by_duration rest min_duration max_duration with
          | Raised e => Raised e
          | Returned kept =>
              Returned (if Qle_bool min_duration d && Qle_bool d max_duration
                        then s :: kept else kept)
          end
      end
  end.

(** ** MissionImpossibleSupercut (main.py)

    File checks, scene detection, rendering and the JSON dumps are
    external; their answers are parameters. *)

(** [scene['video_path'] = video_path] *)
Definition set_video_path (path : string) (s : scene) : scene :=
  {| scene_number := scene_number s;
     start_frame := start_frame s;
     end_frame := end_frame s;
     video_path := Some path;
     start_time := start_time s;
     end_time := end_time s;
     duration := duration s;
     action_type := action_type s;
     action_confidence := action_confidence s;
     is_action_scene := is_action_scene s;
     segment_results := segment_results s;
     all_scores := all_scores s |}.

(** What the collaborators answer for one input path: whether
    [add_video] accepted it, and the scene list [detect_scenes] found. *)
Record video : Type := mkVideo {
  path_of : string;
  added : bool;
  detected : list (timecode * timecode)
}.

Section Application.

Variable top5 : string -> Q -> Q -> option (list (Z * Q)).

(** [VideoEditing.create_supercut] on the segments. *)
Variable render : list segment -> option string.

(** The loop [for scene in scene_info] of [process_video]; an exception of
    [analyze_scene] ends it. *)
Fixpoint analyze_all (path : string) (scene_info : list scene) : result (list scene) :=
  match scene_info with
  | [] => Returned []
  | s :: rest =>
      match Recognition.analyze_scene top5 path s with
      | Raised e => Raised e
      | Returned processed_scene =>
          match analyze_all path rest with
          | Raised e => Raised e
          | Returned processed_scenes => Returned (processed_scene :: processed_scenes)
          end
      end
  end.

Definition process_video (v : video) : result (list scene) :=
  if negb (added v) then Returned []
  else
    match detected v with
    | [] => Returned []
    | scene_list =>
        analyze_all (path_of v)
          (map (set_video_path (path_of v)) (get_scene_info scene_list))
    end.

Definition create_supercut (processed_scenes : list scene)
    (target_duration min_confidence min_duration max_duration : Q)
    (ensure_diversity : bool) : option string :=
  match select_sequences_for_supercut processed_scenes target_duration min_confidence
          min_duration max_duration ensure_diversity None with
  | [] => None
  | selected_scenes => render (get_supercut_segments selected_scenes)
  end.

(** [all_processed_scenes] after the loop over the videos. *)
Fixpoint process_all (videos : list video) : result (list scene) :=
  match videos with
  | [] => Returned []
  | v :: rest =>
      match process_video v with
      | Raised e => Raised e
      | Returned processed_scenes =>
          match process_all rest with
          | Raised e => Raised e
          | Returned others => Returned (processed_scenes ++ others)
          end
      end
  end.

Definition process_multiple_videos (videos : list video)
    (target_duration min_confidence min_duration max_duration : Q)
    (ensure_diversity : bool) : result (option string) :=
  match process_all videos with
  | Raised e => Raised e
  | Returned [] => Returned None
  | Returned all_processed_scenes =>
      Returned (create_supercut all_processed_scenes target_duration min_confidence
                  min_duration max_duration ensure_diversity)
  end.

End Application.

(** ** VideoEditing: the transition loop of create_supercut

    Clips and their effects belong to the video library; the loop is
    modelled over any type of clips with any two effect functions. *)

Section Transitions.

Variable clip : Type.
Variables fadeout fadein : clip -> clip.

(** [add_transition(clip1, clip2, "fade", 0.5)] on two clips. *)
Definition add_transition (clip1 clip2 : clip) : list clip :=
  [fadeout clip1; fadein clip2].

(** One iteration of [for i in range(len(clips) - 1)]; [None] is an
    index out of range. *)
Definition transition_step (clips : list clip) (acc : option (list clip)) (i : nat)
    : option (list clip) :=
  match acc, nth_error clips i, nth_error clips (i + 1) with
  | Some clips_with_transitions, Some clip1, Some clip2 =>
      let transition_clips := add_transition clip1 clip2 in
      if (i =? 0)%nat then Some (clips_with_transitions ++ transition_clips)
      else
        match nth_error transition_clips 1 with
        | Some c => Some (clips_with_transitions ++ [c])
        | None => None
        end
  | _, _, _ => None
  end.

(** [clips] after the block [if add_transitions and len(clips) > 1]. *)
Definition apply_transitions (add_transitions : bool) (clips : list clip)
    : option (list clip) :=
  if add_transitions && (1 <? length clips)%nat
  then fold_left (transition_step clips) (seq 0 (length clips - 1)) (Some [])
  else Some clips.

End Transitions.

(** * Vocabulary of the properties *)

(** The survival condition in the words of the specification. *)
Definition survives (min_confidence min_duration max_duration : Q) (s : scene) : Prop :=
  get_is_action_scene s = true
  /\ min_confidence <= get_action_confidence s
  /\ min_duration <= get_duration s
  /\ get_duration s <= max_duration.

(** [kept_in_order P l l']: [l'] is [l] walked front to back, keeping,
    untouched, exactly the elements that satisfy [P]. *)
Inductive kept_in_order {A} (P : A -> Prop) : list A -> list A -> Prop :=
  | kept_nil : kept_in_order P [] []
  | kept_keep x l l' : P x -> kept_in_order P l l' -> kept_in_order P (x :: l) (x :: l')
  | kept_drop x l l' : ~ P x -> kept_in_order P l l' -> kept_in_order P (x :: l) l'.

(** Descending key order. *)
Definition desc {A} (key : A -> Q) (x y : A) : Prop := key y <= key x.

(** The elements whose key equals [c]. *)
Definition has_key {A} (key : A -> Q) (c : Q) (x : A) : bool := Qeq_bool (key x) c.

(** [target_duration * 1.2] *)
Definition overflow_bound (target_duration : Q) : Q := target_duration * (12 # 10).

(** Sum of the durations of a list of scenes. *)
Definition total_duration (l : list scene) : Q :=
  fold_right (fun s acc => get_duration s + acc) 0 l.

(** The scenes the loop appends when it starts, not stopped, with running
    total [current]: the loop read as a recursion on the input. *)
Fixpoint accepted (target_duration current : Q) (l : list scene) : list scene :=
  match l with
  | [] => []
  | s :: l' =>
      if Qlt_bool (target_duration * (12 # 10)) (current + get_duration s)
      then accepted target_duration current l'
      else s :: (if Qle_bool target_duration (current + get_duration s) then []
                 else accepted target_duration (current + get_duration s) l')
  end.

(** What one iteration maintains: the running total is the sum of the
    accepted durations, and once a scene has been accepted the running
    total is within the overflow bound. *)
Definition pack_inv (target_duration : Q) (st : pack_state) : Prop :=
  current_duration st == total_duration (final_selection st)
  /\ (final_selection st <> [] -> current_duration st <= overflow_bound target_duration).

(** A scene that carries only what the selection reads. *)
Definition sc (ty : string) (conf dur : Q) : scene :=
  {| scene_number := None; start_frame := None; end_frame := None;
     video_path := None; start_time := None; end_time := None;
     duration := Some dur; action_type := Some ty;
     action_confidence := Some conf; is_action_scene := Some true;
     segment_results := None; all_scores := None |}.

(** A call that ends in a configuration error before any stage has run:
    it raises, and no stage has logged. *)
Definition rejects_configuration (run : list log_record * result (list scene)) : Prop :=
  exists e, run = ([], Raised e).

(** The scene's category is [c]. *)
Definition has_type (c : string) (s : scene) : bool := String.eqb (get_action_type s) c.

(** The scenes of category [c], in the order of the list. *)
Definition of_type (c : string) (scenes : list scene) : list scene :=
  filter (has_type c) scenes.

Arguments of_type : simpl never.

(** Number of scenes of category [c]. *)
Definition count_type (c : string) (scenes : list scene) : nat :=
  length (of_type c scenes).

(** [k in l] on strings. *)
Definition mem (k : string) (l : list string) : bool := existsb (String.eqb k) l.

(** The categories of a list in order of first appearance: a key is
    listed where it is met for the first time. *)
Fixpoint first_seen (seen keys : list string) : list string :=
  match keys with
  | [] => []
  | k :: keys' =>
      if mem k seen then first_seen seen keys'
      else k :: first_seen (k :: seen) keys'
  end.

(** The categories of a scene list in order of first appearance. *)
Definition discovery_order (scenes : list scene) : list string :=
  first_seen [] (map get_action_type scenes).

(** Phase A for one category: its [min_per_type] best scenes. *)
Definition floor_of (min_per_type : Z) (scenes : list scene) (c : string) : list scene :=
  slice_to min_per_type (sorted_desc get_action_confidence (of_type c scenes)).

(** Phase B for one category: up to [can_add] of the scenes Phase A left. *)
Definition surplus_of (can_add min_per_type : Z) (scenes : list scene) (c : string)
    : list scene :=
  slice_to can_add
    (slice_from min_per_type (sorted_desc get_action_confidence (of_type c scenes))).

(** Phase A: the floor of every category, categories in discovery order. *)
Definition phase_a (min_per_type : Z) (scenes : list scene) : list scene :=
  flat_map (floor_of min_per_type scenes) (discovery_order scenes).

(** Phase B: the surplus of every category, merged and sorted by
    confidence. *)
Definition phase_b (max_per_type min_per_type : Z) (scenes : list scene) : list scene :=
  sorted_desc get_action_confidence
    (if (0 <? max_per_type - min_per_type)%Z
     then flat_map (surplus_of (max_per_type - min_per_type) min_per_type scenes)
            (discovery_order scenes)
     else []).

(** The scene with the three fields the selection reads through
    [.get(key, default)] filled in with the defaults. *)
Definition with_defaults (s : scene) : scene :=
  {| scene_number := scene_number s;
     start_frame := start_frame s;
     end_frame := end_frame s;
     video_path := video_path s;
     start_time := start_time s;
     end_time := end_time s;
     duration := Some (get (duration s) 0);
     action_type := action_type s;
     action_confidence := Some (get (action_confidence s) 0);
     is_action_scene := Some (get (is_action_scene s) false);
     segment_results := segment_results s;
     all_scores := all_scores s |}.

(** A scene without a duration that passes a filter admitting duration 0. *)
Definition no_duration : scene :=
  {| scene_number := None; start_frame := None; end_frame := None;
     video_path := None; start_time := None; end_time := None;
     duration := None; action_type := Some "chase"%string;
     action_confidence := Some (9 # 10); is_action_scene := Some true;
     segment_results := None; all_scores := None |}.

(** A packing state with [f] applied to the selected records. *)
Definition map_selection (f : scene -> scene) (st : pack_state) : pack_state :=
  {| final_selection := map f (final_selection st);
     current_duration := current_duration st;
     stopped := stopped st |}.



(** A 15-second scene as [get_scene_info] builds it. *)
Definition long_scene : scene :=
  {| scene_number := Some 1%Z; start_frame := Some 0%Z; end_frame := Some 360%Z;
     video_path := Some "movie.mp4"%string;
     start_time := Some 0; end_time := Some 15; duration := Some 15;
     action_type := None; action_confidence := None; is_action_scene := None;
     segment_results := None; all_scores := None |}.

(** [selected_from l' l]: [l'] takes scenes out of [l], each at most as
    often as [l] holds it; [l] is [l'] and the scenes left behind, in some
    order. *)
Definition selected_from (l' l : list scene) : Prop :=
  exists rest, Permutation (l' ++ rest) l.

(** [contiguous from l to]: the windows of [l] follow one another without
    gap or overlap, the first starting at [from], the last ending at [to]
    ([from = to] when there is none). *)
Fixpoint contiguous (from : Q) (l : list (Q * Q)) (to : Q) : Prop :=
  match l with
  | [] => from = to
  | w :: l' => fst w = from /\ contiguous (snd w) l' to
  end.

(** The characters a class name can hold. *)
Definition class_alphabet : list ascii := list_ascii_of_string "class_-0123456789".

Definition in_alphabet (ch : ascii) : bool := existsb (Ascii.eqb ch) class_alphabet.

(** The keyword holds a character no class name holds. *)
Definition foreign (keyword : string) : bool :=
  existsb (fun ch => negb (in_alphabet ch)) (list_ascii_of_string keyword).

(** The dict [classify_action] returns when frames were extracted,
    whatever the model answered. *)
Definition no_action : Recognition.result_dict :=
  {| Recognition.res_action_type := "chase";
     Recognition.res_confidence := 0;
     Recognition.res_is_action := false;
     Recognition.res_all_scores :=
       Some [("chase"%string, 0); ("fight"%string, 0); ("explosion"%string, 0);
             ("vehicle"%string, 0); ("stunts"%string, 0); ("shooting"%string, 0)] |}.

(** The dict of the early returns. *)
Definition unknown_action : Recognition.result_dict :=
  {| Recognition.res_action_type := "unknown";
     Recognition.res_confidence := 0;
     Recognition.res_is_action := false;
     Recognition.res_all_scores := None |}.

(** * Properties *)

(** ** Comparisons *)

Lemma Qlt_bool_iff (x y : Q) : Qlt_bool x y = true <-> x < y.
Proof.
  unfold Qlt_bool. rewrite negb_true_iff.
  split; intro H.
  - apply Qnot_le_lt. intro Hle. apply Qle_bool_iff in Hle. congruence.
  - destruct (Qle_bool y x) eqn:E; [|reflexivity].
    apply Qle_bool_iff in E. exfalso. apply (Qlt_not_le _ _ H E).
Qed.

Lemma Qlt_bool_false_iff (x y : Q) : Qlt_bool x y = false <-> y <= x.
Proof.
  unfold Qlt_bool. rewrite negb_false_iff. apply Qle_bool_iff.
Qed.

Lemma Qle_bool_false_iff (x y : Q) : Qle_bool x y = false <-> y < x.
Proof.
  rewrite <- Qlt_bool_iff. unfold Qlt_bool.
  destruct (Qle_bool x y); simpl; split; congruence.
Qed.

(** ** The filter stage *)

Lemma keeps_iff (min_confidence min_duration max_duration : Q) (s : scene) :
  keeps min_confidence min_duration max_duration s = true
  <-> survives min_confidence min_duration max_duration s.
Proof.
  unfold keeps, survives.
  rewrite !andb_true_iff, !Qle_bool_iff. tauto.
Qed.

Lemma filter_action_scenes_In (scenes : list scene)
    (min_confidence min_duration max_duration : Q) (s : scene) :
  In s (filter_action_scenes scenes min_confidence min_duration max_duration)
  <-> In s scenes /\ survives min_confidence min_duration max_duration s.
Proof.
  unfold filter_action_scenes. rewrite filter_In, keeps_iff. reflexivity.
Qed.

(** C5. [filter_action_scenes] keeps a scene exactly when it is an action
    scene whose confidence is at least [min_confidence] and whose duration
    lies in [[min_duration, max_duration]]; the survivors are the input
    walked in order, each record passed through unchanged. *)
Theorem filter_action_scenes_spec (scenes : list scene)
    (min_confidence min_duration max_duration : Q) :
  (forall s,
      In s (filter_action_scenes scenes min_confidence min_duration max_duration)
      <-> In s scenes /\ survives min_confidence min_duration max_duration s)
  /\ kept_in_order (survives min_confidence min_duration max_duration) scenes
       (filter_action_scenes scenes min_confidence min_duration max_duration).
Proof.
  unfold filter_action_scenes. split.
  - intro s. rewrite filter_In, keeps_iff. reflexivity.
  - induction scenes as [|x l IH]; simpl.
    + constructor.
    + destruct (keeps min_confidence min_duration max_duration x) eqn:E.
      * apply kept_keep; [apply keeps_iff; exact E | exact IH].
      * apply kept_drop; [|exact IH].
        intro H. apply keeps_iff in H. congruence.
Qed.

(** ** The ranker *)

Lemma insert_desc_perm {A} (key : A -> Q) (x : A) (l : list A) :
  Permutation (x :: l) (insert_desc key x l).
Proof.
  induction l as [|y l IH]; simpl.
  - apply Permutation_refl.
  - destruct (Qle_bool (key y) (key x)).
    + apply Permutation_refl.
    + eapply perm_trans; [apply perm_swap|]. apply perm_skip, IH.
Qed.

Lemma sorted_desc_perm {A} (key : A -> Q) (l : list A) :
  Permutation l (sorted_desc key l).
Proof.
  induction l as [|x l IH]; simpl.
  - constructor.
  - eapply perm_trans; [apply perm_skip, IH|]. apply insert_desc_perm.
Qed.

Lemma insert_desc_sorted {A} (key : A -> Q) (x : A) (l : list A) :
  StronglySorted (desc key) l -> StronglySorted (desc key) (insert_desc key x l).
Proof.
  induction 1 as [|y l Hs IH Hall]; simpl.
  - repeat constructor.
  - destruct (Qle_bool (key y) (key x)) eqn:E.
    + apply Qle_bool_iff in E.
      constructor; [constructor; assumption|].
      constructor; [exact E|].
      eapply Forall_impl; [|exact Hall].
      intros z Hz. unfold desc in *. eapply Qle_trans; eassumption.
    + apply Qle_bool_false_iff in E.
      constructor; [exact IH|].
      eapply Permutation_Forall; [apply insert_desc_perm|].
      constructor; [|exact Hall].
      unfold desc. apply Qlt_le_weak, E.
Qed.

Lemma sorted_desc_sorted {A} (key : A -> Q) (l : list A) :
  StronglySorted (desc key) (sorted_desc key l).
Proof.
  induction l as [|x l IH]; simpl.
  - constructor.
  - apply insert_desc_sorted, IH.
Qed.

Lemma filter_insert_desc {A} (key : A -> Q) (c : Q) (x : A) (l : list A) :
  filter (has_key key c) (insert_desc key x l) = filter (has_key key c) (x :: l).
Proof.
  induction l as [|y l IH]; [reflexivity|].
  simpl insert_desc.
  destruct (Qle_bool (key y) (key x)) eqn:E; [reflexivity|].
  apply Qle_bool_false_iff in E.
  simpl in *. rewrite IH. unfold has_key.
  destruct (Qeq_bool (key y) c) eqn:Ey, (Qeq_bool (key x) c) eqn:Ex; try reflexivity.
  apply Qeq_bool_iff in Ey, Ex. rewrite Ey, Ex in E.
  exfalso. apply (Qlt_irrefl _ E).
Qed.

Lemma sorted_desc_stable {A} (key : A -> Q) (c : Q) (l : list A) :
  filter (has_key key c) (sorted_desc key l) = filter (has_key key c) l.
Proof.
  induction l as [|x l IH]; [reflexivity|].
  simpl sorted_desc. rewrite filter_insert_desc. simpl. rewrite IH. reflexivity.
Qed.

(** A list already in descending key order is returned as it is. *)
Lemma sorted_desc_id {A} (key : A -> Q) (l : list A) :
  StronglySorted (desc key) l -> sorted_desc key l = l.
Proof.
  induction 1 as [|x l Hs IH Hall]; [reflexivity|].
  simpl. rewrite IH. destruct l as [|y l]; [reflexivity|].
  simpl. inversion Hall as [|? ? Hy _]; subst.
  unfold desc in Hy. apply Qle_bool_iff in Hy. rewrite Hy. reflexivity.
Qed.

Lemma has_key_self {A} (key : A -> Q) (x : A) : has_key key (key x) x = true.
Proof. unfold has_key. apply Qeq_bool_iff. reflexivity. Qed.

Lemma filter_head_In {A} (p : A -> bool) (l l' : list A) (x : A) :
  filter p l = x :: l' -> In x l /\ p x = true.
Proof.
  intro H. apply filter_In. rewrite H. left. reflexivity.
Qed.

(** Two lists in descending key order that agree, for every key value, on
    the elements carrying it in order, are the same list: descending order
    and stability leave [sorted] no freedom. *)
Lemma stable_sort_unique {A} (key : A -> Q) (l1 l2 : list A) :
  StronglySorted (desc key) l1 -> StronglySorted (desc key) l2 ->
  (forall c, filter (has_key key c) l1 = filter (has_key key c) l2) ->
  l1 = l2.
Proof.
  intro H1. revert l2. induction H1 as [|x l1 Hs1 IH Hall1]; intros l2 H2 Hf.
  - destruct l2 as [|y l2]; [reflexivity|].
    specialize (Hf (key y)). simpl in Hf. rewrite has_key_self in Hf. discriminate Hf.
  - destruct H2 as [|y l2 Hs2 Hall2].
    + specialize (Hf (key x)). simpl in Hf. rewrite has_key_self in Hf. discriminate Hf.
    + assert (Hxy : key x == key y).
      { apply Qle_antisym.
        - pose proof (Hf (key x)) as Hx. simpl in Hx. rewrite has_key_self in Hx.
          destruct (has_key key (key x) y) eqn:E.
          + unfold has_key in E. apply Qeq_bool_iff in E. rewrite E. apply Qle_refl.
          + symmetry in Hx. apply filter_head_In in Hx. destruct Hx as [Hx _].
            rewrite Forall_forall in Hall2. apply (Hall2 x Hx).
        - pose proof (Hf (key y)) as Hy. simpl in Hy. rewrite has_key_self in Hy.
          destruct (has_key key (key y) x) eqn:E.
          + unfold has_key in E. apply Qeq_bool_iff in E. rewrite E. apply Qle_refl.
          + apply filter_head_In in Hy. destruct Hy as [Hy _].
            rewrite Forall_forall in Hall1. apply (Hall1 y Hy). }
      assert (Ex : has_key key (key x) y = true)
        by (unfold has_key; apply Qeq_bool_iff; symmetry; exact Hxy).
      pose proof (Hf (key x)) as Hhead. simpl in Hhead.
      rewrite has_key_self, Ex in Hhead. injection Hhead as Heq Htail. subst y.
      f_equal. apply IH; [exact Hs2|].
      intro c. specialize (Hf c). simpl in Hf.
      destruct (has_key key c x); [injection Hf as Hf|]; exact Hf.
Qed.

(** C6. The ranker returns a permutation of its input in descending
    confidence order, and it is stable: for every confidence value, the
    scenes that carry it come out in the order they went in. *)
Theorem rank_scenes_stable (scenes : list scene) :
  Permutation scenes (rank_scenes_by_action_intensity scenes)
  /\ StronglySorted (desc get_action_confidence) (rank_scenes_by_action_intensity scenes)
  /\ forall c : Q,
       filter (has_key get_action_confidence c) (rank_scenes_by_action_intensity scenes)
       = filter (has_key get_action_confidence c) scenes.
Proof.
  unfold rank_scenes_by_action_intensity. split; [|split].
  - apply sorted_desc_perm.
  - apply sorted_desc_sorted.
  - intro c. apply sorted_desc_stable.
Qed.

(** ** The packing loop *)

Lemma total_duration_app (l1 l2 : list scene) :
  total_duration (l1 ++ l2) == total_duration l1 + total_duration l2.
Proof.
  induction l1 as [|x l1 IH]; simpl.
  - lra.
  - rewrite IH. lra.
Qed.

Lemma pack_loop_cons (target_duration : Q) (s : scene) (l : list scene) (st : pack_state) :
  pack_loop target_duration (s :: l) st
  = pack_loop target_duration l (pack_step target_duration st s).
Proof. reflexivity. Qed.

Lemma pack_loop_stopped (target_duration : Q) (l : list scene) (st : pack_state) :
  stopped st = true -> pack_loop target_duration l st = st.
Proof.
  intro H. induction l as [|s l IH]; [reflexivity|].
  rewrite pack_loop_cons. unfold pack_step. rewrite H. exact IH.
Qed.

Lemma pack_loop_accepted (target_duration : Q) (l : list scene) (st : pack_state) :
  stopped st = false ->
  final_selection (pack_loop target_duration l st)
  = final_selection st ++ accepted target_duration (current_duration st) l.
Proof.
  revert st. induction l as [|s l IH]; intros st H.
  - simpl. rewrite app_nil_r. reflexivity.
  - rewrite pack_loop_cons. unfold pack_step. rewrite H. simpl accepted.
    destruct (Qlt_bool _ _) eqn:E.
    + apply IH, H.
    + destruct (Qle_bool target_duration _) eqn:E'.
      * rewrite pack_loop_stopped by reflexivity. reflexivity.
      * rewrite IH by reflexivity. simpl. rewrite <- app_assoc. reflexivity.
Qed.

Lemma pack_step_inv (target_duration : Q) (st : pack_state) (s : scene) :
  pack_inv target_duration st -> pack_inv target_duration (pack_step target_duration st s).
Proof.
  intros [Hsum Hb]. unfold pack_step.
  destruct (stopped st); [split; assumption|].
  destruct (Qlt_bool _ _) eqn:E; [split; assumption|].
  apply Qlt_bool_false_iff in E.
  split; simpl.
  - rewrite total_duration_app. simpl. rewrite Hsum. lra.
  - intros _. exact E.
Qed.

Lemma pack_loop_inv (target_duration : Q) (l : list scene) (st : pack_state) :
  pack_inv target_duration st -> pack_inv target_duration (pack_loop target_duration l st).
Proof.
  revert st. induction l as [|s l IH]; intros st H; [exact H|].
  rewrite pack_loop_cons. apply IH, pack_step_inv, H.
Qed.

Lemma pack_init_inv (target_duration : Q) : pack_inv target_duration pack_init.
Proof.
  split; simpl; [reflexivity|congruence].
Qed.

(** C4. The three-scene scenario: the filter drops the 0.40 scene, the
    ranker puts fight before chase, the loop accepts fight (20 < 30, goes
    on) and chase (35 <= 36, and 35 >= 30 stops it); the result is
    [fight, chase] with total 35. The fields the selection does not read
    are arbitrary. *)
Theorem scenario_fight_chase (chase fight weak : scene) (max_per_type : option Z) :
  is_action_scene chase = Some true -> action_confidence chase = Some (85 # 100) ->
  duration chase = Some 15 ->
  is_action_scene fight = Some true -> action_confidence fight = Some (92 # 100) ->
  duration fight = Some 20 ->
  is_action_scene weak = Some true -> action_confidence weak = Some (40 # 100) ->
  duration weak = Some 5 ->
  let after_fight := pack_step 30 pack_init fight in
  let after_chase := pack_step 30 after_fight chase in
  filter_action_scenes [chase; fight; weak] (5 # 10) 3 60 = [chase; fight]
  /\ rank_scenes_by_action_intensity [chase; fight] = [fight; chase]
  /\ (final_selection after_fight = [fight]
      /\ current_duration after_fight == 20 /\ stopped after_fight = false)
  /\ (final_selection after_chase = [fight; chase]
      /\ current_duration after_chase == 35
      /\ current_duration after_chase <= 30 * (12 # 10)
      /\ stopped after_chase = true)
  /\ select_sequences_for_supercut [chase; fight; weak] 30 (5 # 10) 3 60 false max_per_type
     = [fight; chase]
  /\ achieved_duration [chase; fight; weak] 30 (5 # 10) 3 60 false max_per_type == 35.
Proof.
  intros A1 C1 D1 A2 C2 D2 A3 C3 D3.
  assert (F : filter_action_scenes [chase; fight; weak] (5 # 10) 3 60 = [chase; fight]).
  { unfold filter_action_scenes, keeps, get_is_action_scene, get_action_confidence,
      get_duration. simpl.
    rewrite A1, C1, D1, A2, C2, D2, A3, C3, D3. reflexivity. }
  assert (R : rank_scenes_by_action_intensity [chase; fight] = [fight; chase]).
  { unfold rank_scenes_by_action_intensity, get_action_confidence. simpl.
    rewrite C1, C2. reflexivity. }
  assert (P1 : pack_step 30 pack_init fight
               = {| final_selection := [fight]; current_duration := 0 + 20;
                    stopped := false |}).
  { unfold pack_step, get_duration. rewrite D2. reflexivity. }
  assert (P2 : pack_step 30 (pack_step 30 pack_init fight) chase
               = {| final_selection := [fight; chase]; current_duration := 0 + 20 + 15;
                    stopped := true |}).
  { rewrite P1. unfold pack_step, get_duration. rewrite D1. reflexivity. }
  cbv zeta.
  split; [exact F|]. split; [exact R|].
  rewrite P2, P1. simpl.
  split; [repeat split; reflexivity|].
  split; [repeat split; try reflexivity; unfold Qle; simpl; lia|].
  unfold select_sequences_for_supercut, achieved_duration, select_state.
  rewrite F, R. unfold pack_loop. simpl fold_left. rewrite P2. simpl.
  split; reflexivity.
Qed.

Lemma scenario_fight_chase_witness :
  select_sequences_for_supercut
    [sc "chase" (85 # 100) 15; sc "fight" (92 # 100) 20; sc "chase" (40 # 100) 5]
    30 (5 # 10) 3 60 false None
  = [sc "fight" (92 # 100) 20; sc "chase" (85 # 100) 15].
Proof.
  apply (scenario_fight_chase (sc "chase" (85 # 100) 15) (sc "fight" (92 # 100) 20)
           (sc "chase" (40 # 100) 5) None); reflexivity.
Defined.

(** ** Idempotence of the pipeline without diversity balancing *)

Lemma accepted_In (target_duration current : Q) (l : list scene) (s : scene) :
  In s (accepted target_duration current l) -> In s l.
Proof.
  revert current. induction l as [|x l IH]; intros current H; [exact H|].
  simpl in H. destruct (Qlt_bool _ _).
  - right. eapply IH, H.
  - destruct H as [H|H]; [left; exact H|].
    destruct (Qle_bool _ _); [destruct H|].
    right. eapply IH, H.
Qed.

Lemma accepted_sorted (R : scene -> scene -> Prop) (target_duration current : Q)
    (l : list scene) :
  StronglySorted R l -> StronglySorted R (accepted target_duration current l).
Proof.
  intro H. revert current. induction H as [|x l Hs IH Hall]; intro current; simpl.
  - constructor.
  - destruct (Qlt_bool _ _); [apply IH|].
    constructor.
    + destruct (Qle_bool _ _); [constructor|apply IH].
    + destruct (Qle_bool _ _); [constructor|].
      rewrite Forall_forall in *. intros y Hy. eapply Hall, accepted_In, Hy.
Qed.

Lemma accepted_idempotent (target_duration current : Q) (l : list scene) :
  accepted target_duration current (accepted target_duration current l)
  = accepted target_duration current l.
Proof.
  revert current. induction l as [|x l IH]; intro current; [reflexivity|].
  simpl. destruct (Qlt_bool _ _) eqn:E; [apply IH|].
  simpl. rewrite E.
  destruct (Qle_bool _ _) eqn:E'; [reflexivity|].
  rewrite IH. reflexivity.
Qed.

Lemma filter_all {A} (p : A -> bool) (l : list A) :
  (forall x, In x l -> p x = true) -> filter p l = l.
Proof.
  induction l as [|x l IH]; intro H; [reflexivity|].
  simpl. rewrite (H x) by (left; reflexivity).
  rewrite IH; [reflexivity|]. intros y Hy. apply H. right. exact Hy.
Qed.

Lemma select_without_diversity (scenes : list scene)
    (target_duration min_confidence min_duration max_duration : Q)
    (max_per_type : option Z) :
  select_sequences_for_supercut scenes target_duration min_confidence
    min_duration max_duration false max_per_type
  = accepted target_duration 0
      (rank_scenes_by_action_intensity
         (filter_action_scenes scenes min_confidence min_duration max_duration)).
Proof.
  unfold select_sequences_for_supercut, select_state.
  destruct (filter_action_scenes _ _ _ _) as [|x l]; [reflexivity|].
  rewrite pack_loop_accepted by reflexivity. reflexivity.
Qed.

(** C9. Without diversity balancing, running the pipeline on its own
    output, with the same target and with filter bounds that admit every
    scene of that output, returns the output unchanged. *)
Theorem select_idempotent (scenes : list scene)
    (target_duration min_confidence min_duration max_duration : Q)
    (max_per_type max_per_type' : option Z)
    (min_confidence' min_duration' max_duration' : Q) :
  let O :=
    select_sequences_for_supercut scenes target_duration min_confidence
      min_duration max_duration false max_per_type in
  (forall s, In s O ->
     min_confidence' <= get_action_confidence s
     /\ min_duration' <= get_duration s /\ get_duration s <= max_duration') ->
  select_sequences_for_supercut O target_duration min_confidence'
    min_duration' max_duration' false max_per_type' = O.
Proof.
  intros O Hloose.
  assert (HO : O = accepted target_duration 0
                     (rank_scenes_by_action_intensity
                        (filter_action_scenes scenes min_confidence min_duration
                           max_duration)))
    by apply select_without_diversity.
  rewrite select_without_diversity.
  assert (Hfilter : filter_action_scenes O min_confidence' min_duration' max_duration' = O).
  { apply filter_all. intros s Hs. apply keeps_iff.
    destruct (Hloose s Hs) as (Hc & Hd1 & Hd2).
    repeat split; try assumption.
    rewrite HO in Hs. apply accepted_In in Hs.
    eapply Permutation_in in Hs;
      [|apply Permutation_sym, sorted_desc_perm].
    apply filter_In in Hs. destruct Hs as [_ Hs].
    apply keeps_iff in Hs. apply Hs. }
  rewrite Hfilter.
  assert (Hrank : rank_scenes_by_action_intensity O = O).
  { apply sorted_desc_id. rewrite HO. apply accepted_sorted, sorted_desc_sorted. }
  rewrite Hrank. rewrite HO at 1. rewrite accepted_idempotent. symmetry. exact HO.
Qed.

Lemma select_idempotent_witness :
  select_sequences_for_supercut
    (select_sequences_for_supercut
       [sc "chase" (85 # 100) 15; sc "fight" (92 # 100) 20; sc "chase" (40 # 100) 5]
       30 (5 # 10) 3 60 false None)
    30 0 0 100 false None
  = select_sequences_for_supercut
      [sc "chase" (85 # 100) 15; sc "fight" (92 # 100) 20; sc "chase" (40 # 100) 5]
      30 (5 # 10) 3 60 false None.
Proof.
  apply (select_idempotent
           [sc "chase" (85 # 100) 15; sc "fight" (92 # 100) 20; sc "chase" (40 # 100) 5]
           30 (5 # 10) 3 60 None None 0 0 100).
  intros s Hs. vm_compute in Hs.
  destruct Hs as [Hs|[Hs|[]]]; subst s; vm_compute; repeat split; discriminate.
Defined.

(** ** Configurations no scene can satisfy *)

Lemma filter_empty_window (scenes : list scene)
    (min_confidence min_duration max_duration : Q) :
  max_duration < min_duration ->
  filter_action_scenes scenes min_confidence min_duration max_duration = [].
Proof.
  intro H. unfold filter_action_scenes.
  induction scenes as [|s l IH]; [reflexivity|].
  simpl. rewrite IH.
  destruct (keeps min_confidence min_duration max_duration s) eqn:E; [|reflexivity].
  apply keeps_iff in E. destruct E as (_ & _ & H1 & H2).
  exfalso. apply (Qlt_not_le _ _ H). eapply Qle_trans; eassumption.
Qed.

Lemma select_run_returns (scenes : list scene)
    (target_duration min_confidence min_duration max_duration : Q)
    (ensure_diversity : bool) (max_per_type : option Z) :
  exists log,
    select_sequences_for_supercut_run scenes target_duration min_confidence
      min_duration max_duration ensure_diversity max_per_type
    = (LogFiltered (length scenes)
         (length (filter_action_scenes scenes min_confidence min_duration max_duration))
         min_confidence min_duration max_duration :: log,
       Returned
         (select_sequences_for_supercut scenes target_duration min_confidence
            min_duration max_duration ensure_diversity max_per_type)).
Proof.
  unfold select_sequences_for_supercut_run, select_sequences_for_supercut,
    filter_action_scenes_log, rank_scenes_by_action_intensity_log.
  destruct (filter_action_scenes _ _ _ _) as [|x l]; [eexists; reflexivity|].
  destruct ensure_diversity; simpl; eexists; reflexivity.
Qed.

(** C3 as stated fails: with [min_duration = 5 > max_duration = 3] the
    call returns normally, after the filter stage has run and logged. *)
Lemma no_configuration_error :
  select_sequences_for_supercut_run [sc "chase" (85 # 100) 15] 30 (5 # 10) 5 3 false None
  = ([LogFiltered 1 0 (5 # 10) 5 3; LogNoScenesMatch], Returned [])
  /\ ~ rejects_configuration
         (select_sequences_for_supercut_run [sc "chase" (85 # 100) 15]
            30 (5 # 10) 5 3 false None).
Proof.
  split; [reflexivity|].
  intros [e H]. vm_compute in H. discriminate H.
Qed.

(** C3 (amended). Under [min_duration > max_duration] or
    [target_duration <= 0] the call raises nothing: the filter stage runs
    first and logs, and the call returns a list; when
    [min_duration > max_duration] the filter rejects every scene, the
    later stages are not entered, and the list is empty. *)
Theorem configuration_not_checked (scenes : list scene)
    (target_duration min_confidence min_duration max_duration : Q)
    (ensure_diversity : bool) (max_per_type : option Z) :
  max_duration < min_duration \/ target_duration <= 0 ->
  let run :=
    select_sequences_for_supercut_run scenes target_duration min_confidence
      min_duration max_duration ensure_diversity max_per_type in
  ~ rejects_configuration run
  /\ (exists log,
        run = (LogFiltered (length scenes)
                 (length (filter_action_scenes scenes min_confidence min_duration
                            max_duration))
                 min_confidence min_duration max_duration :: log,
               Returned
                 (select_sequences_for_supercut scenes target_duration min_confidence
                    min_duration max_duration ensure_diversity max_per_type)))
  /\ (max_duration < min_duration ->
      run = ([LogFiltered (length scenes) 0 min_confidence min_duration max_duration;
              LogNoScenesMatch],
             Returned [])).
Proof.
  intros _ run. subst run.
  destruct (select_run_returns scenes target_duration min_confidence min_duration
              max_duration ensure_diversity max_per_type) as [log Hlog].
  split; [|split].
  - intros [e H]. rewrite Hlog in H. discriminate H.
  - exists log. exact Hlog.
  - intro H.
    unfold select_sequences_for_supercut_run, filter_action_scenes_log.
    rewrite (filter_empty_window scenes min_confidence min_duration max_duration H).
    reflexivity.
Qed.

Lemma configuration_not_checked_witness :
  ~ rejects_configuration
      (select_sequences_for_supercut_run [sc "fight" (92 # 100) 20] 0 (5 # 10) 7 4 true None).
Proof.
  apply (configuration_not_checked [sc "fight" (92 # 100) 20] 0 (5 # 10) 7 4 true None).
  left. reflexivity.
Defined.

(** ** The diversity balancer *)

Lemma mem_In (k : string) (l : list string) : mem k l = true <-> In k l.
Proof.
  unfold mem. rewrite existsb_exists. split.
  - intros (x & Hx & E). apply String.eqb_eq in E. subst. exact Hx.
  - intro H. exists k. split; [exact H|apply String.eqb_refl].
Qed.

Lemma mem_not_In (k : string) (l : list string) : mem k l = false <-> ~ In k l.
Proof.
  rewrite <- mem_In. destruct (mem k l); split; congruence.
Qed.

Lemma first_seen_In (c : string) (keys seen : list string) :
  In c (first_seen seen keys) <-> In c keys /\ ~ In c seen.
Proof.
  revert seen. induction keys as [|k keys IH]; intro seen; simpl.
  - tauto.
  - destruct (mem k seen) eqn:E.
    + apply mem_In in E. rewrite IH. split.
      * intros [H1 H2]. split; [right; exact H1|exact H2].
      * intros [[H1|H1] H2]; [subst; contradiction|split; assumption].
    + apply mem_not_In in E. simpl. rewrite IH. simpl. split.
      * intros [H|[H1 H2]]; [subst; split; [left; reflexivity|exact E]|].
        split; [right; exact H1|tauto].
      * intros [[H1|H1] H2]; [left; exact H1|].
        destruct (string_dec k c) as [->|Hne]; [left; reflexivity|].
        right. split; [exact H1|]. intros [H|H]; [contradiction|contradiction].
Qed.

Lemma first_seen_NoDup (keys seen : list string) : NoDup (first_seen seen keys).
Proof.
  revert seen. induction keys as [|k keys IH]; intro seen; simpl.
  - constructor.
  - destruct (mem k seen); [apply IH|].
    constructor; [|apply IH].
    rewrite first_seen_In. intros [_ H]. apply H. left. reflexivity.
Qed.

Lemma first_seen_ext (keys seen seen' : list string) :
  (forall k, In k seen <-> In k seen') -> first_seen seen keys = first_seen seen' keys.
Proof.
  revert seen seen'. induction keys as [|k keys IH]; intros seen seen' H; [reflexivity|].
  simpl.
  assert (E : mem k seen = mem k seen').
  { destruct (mem k seen) eqn:E1, (mem k seen') eqn:E2; try reflexivity.
    - apply mem_In, H, mem_In in E1. congruence.
    - apply mem_In, H, mem_In in E2. congruence. }
  rewrite E. destruct (mem k seen'); [apply IH, H|].
  f_equal. apply IH. intro x. simpl. rewrite H. reflexivity.
Qed.

Lemma of_type_cons (c : string) (s : scene) (l : list scene) :
  of_type c (s :: l)
  = (if String.eqb (get_action_type s) c then [s] else []) ++ of_type c l.
Proof.
  unfold of_type, has_type. simpl. destruct (String.eqb _ _); reflexivity.
Qed.

Lemma group_append_present (k : string) (s : scene) (G : list (string * list scene)) :
  NoDup (map fst G) -> In k (map fst G) ->
  group_append k s G
  = map (fun g => (fst g, snd g ++ (if String.eqb k (fst g) then [s] else []))) G.
Proof.
  induction G as [|[k' l] G IH]; intros Hnd Hin; [destruct Hin|].
  simpl in *. inversion Hnd as [|? ? Hk' Hnd']; subst.
  destruct (String.eqb k k') eqn:E.
  - apply String.eqb_eq in E. subst k'. f_equal.
    rewrite <- (map_id G) at 1. apply map_ext_in.
    intros [k2 l2] H2. simpl.
    destruct (String.eqb k k2) eqn:E2.
    + apply String.eqb_eq in E2. subst k2. exfalso. apply Hk'.
      apply (in_map fst) in H2. exact H2.
    + rewrite app_nil_r. reflexivity.
  - rewrite app_nil_r. f_equal. apply IH; [exact Hnd'|].
    destruct Hin as [Hin|Hin]; [|exact Hin].
    subst k'. rewrite String.eqb_refl in E. discriminate E.
Qed.

Lemma group_append_absent (k : string) (s : scene) (G : list (string * list scene)) :
  ~ In k (map fst G) -> group_append k s G = G ++ [(k, [s])].
Proof.
  induction G as [|[k' l] G IH]; intro H; [reflexivity|].
  simpl in *. destruct (String.eqb k k') eqn:E.
  - apply String.eqb_eq in E. subst k'. exfalso. apply H. left. reflexivity.
  - f_equal. apply IH. intro H'. apply H. right. exact H'.
Qed.

Lemma group_fold (l : list scene) (G : list (string * list scene)) :
  NoDup (map fst G) ->
  fold_left (fun groups s => group_append (get_action_type s) s groups) l G
  = map (fun g => (fst g, snd g ++ of_type (fst g) l)) G
    ++ map (fun c => (c, of_type c l)) (first_seen (map fst G) (map get_action_type l)).
Proof.
  revert G. induction l as [|s l IH]; intros G Hnd.
  - simpl. rewrite app_nil_r. rewrite <- (map_id G) at 1.
    apply map_ext. intros [k g]. simpl. rewrite app_nil_r. reflexivity.
  - simpl fold_left. simpl map. simpl first_seen.
    destruct (mem (get_action_type s) (map fst G)) eqn:E.
    + apply mem_In in E.
      rewrite group_append_present by assumption.
      rewrite IH by (rewrite map_map; simpl; exact Hnd).
      rewrite !map_map. simpl. f_equal.
      * apply map_ext. intros [k g]. simpl. rewrite of_type_cons, app_assoc. reflexivity.
      * apply map_ext_in. intros c Hc. rewrite of_type_cons.
        apply first_seen_In in Hc. destruct Hc as [_ Hc].
        destruct (String.eqb (get_action_type s) c) eqn:E'; [|reflexivity].
        apply String.eqb_eq in E'. subst c. contradiction.
    + apply mem_not_In in E.
      rewrite group_append_absent by assumption.
      rewrite IH.
      2:{ rewrite map_app. simpl.
          eapply Permutation_NoDup; [apply Permutation_cons_append|].
          constructor; assumption. }
      rewrite !map_app. simpl. rewrite <- app_assoc. simpl. f_equal; [|f_equal].
      * apply map_ext_in. intros [k g] Hg. simpl. rewrite of_type_cons.
        destruct (String.eqb (get_action_type s) k) eqn:E'; [|reflexivity].
        apply String.eqb_eq in E'. subst k. exfalso. apply E.
        apply (in_map fst) in Hg. exact Hg.
      * rewrite of_type_cons, String.eqb_refl. reflexivity.
      * rewrite (first_seen_ext _ (map fst G ++ [get_action_type s])
                   (get_action_type s :: map fst G)).
        2:{ intro x. rewrite in_app_iff. simpl. tauto. }
        apply map_ext_in. intros c Hc. rewrite of_type_cons.
        apply first_seen_In in Hc. destruct Hc as [_ Hc].
        destruct (String.eqb (get_action_type s) c) eqn:E'; [|reflexivity].
        apply String.eqb_eq in E'. subst c. exfalso. apply Hc. left. reflexivity.
Qed.

Lemma group_by_type_spec (scenes : list scene) :
  group_by_type scenes
  = map (fun c => (c, of_type c scenes)) (discovery_order scenes).
Proof.
  unfold group_by_type, discovery_order.
  rewrite group_fold by constructor. reflexivity.
Qed.

Lemma floor_pass_spec (min_per_type : Z) (groups : list (string * list scene)) :
  floor_pass min_per_type groups
  = (flat_map (fun g => slice_to min_per_type
                          (sorted_desc get_action_confidence (snd g))) groups,
     map (fun g => (fst g, slice_from min_per_type
                             (sorted_desc get_action_confidence (snd g)))) groups).
Proof.
  unfold floor_pass.
  set (F := fun (acc : list scene * list (string * list scene)) (g : string * list scene) =>
              (fst acc ++ slice_to min_per_type (sorted_desc get_action_confidence (snd g)),
               snd acc ++ [(fst g, slice_from min_per_type
                                     (sorted_desc get_action_confidence (snd g)))])).
  assert (H : forall acc,
             fold_left F groups acc
             = (fst acc
                ++ flat_map (fun g => slice_to min_per_type
                                        (sorted_desc get_action_confidence (snd g))) groups,
                snd acc
                ++ map (fun g => (fst g, slice_from min_per_type
                                           (sorted_desc get_action_confidence (snd g))))
                     groups)).
  { induction groups as [|g groups IH]; intro acc; simpl.
    - rewrite !app_nil_r. destruct acc; reflexivity.
    - rewrite IH. unfold F. simpl. rewrite <- !app_assoc. reflexivity. }
  apply (H ([], [])).
Qed.

Lemma ceiling_pass_spec (max_per_type min_per_type : Z)
    (groups : list (string * list scene)) :
  ceiling_pass max_per_type min_per_type groups
  = if (0 <? max_per_type - min_per_type)%Z
    then flat_map (fun g => slice_to (max_per_type - min_per_type) (snd g)) groups
    else [].
Proof.
  unfold ceiling_pass.
  destruct (0 <? max_per_type - min_per_type)%Z.
  - assert (H : forall a,
               fold_left (fun (remaining_scenes : list scene) (g : string * list scene) =>
                            remaining_scenes
                            ++ slice_to (max_per_type - min_per_type) (snd g)) groups a
               = a ++ flat_map (fun g => slice_to (max_per_type - min_per_type) (snd g))
                        groups).
    { induction groups as [|g groups IH]; intro a; simpl.
      - rewrite app_nil_r. reflexivity.
      - rewrite IH, <- app_assoc. reflexivity. }
    apply (H []).
  - induction groups as [|g groups IH]; [reflexivity|exact IH].
Qed.

Lemma flat_map_map {A B C} (f : B -> list C) (g : A -> B) (l : list A) :
  flat_map f (map g l) = flat_map (fun x => f (g x)) l.
Proof.
  induction l as [|x l IH]; simpl; [reflexivity|]. rewrite IH. reflexivity.
Qed.

(** The balancer's output is Phase A followed by Phase B. *)
Lemma ensure_action_diversity_spec (scenes : list scene)
    (max_per_type : option Z) (min_per_type : Z) :
  ensure_action_diversity scenes max_per_type min_per_type
  = phase_a min_per_type scenes
    ++ phase_b (resolve_max_per_type scenes max_per_type min_per_type) min_per_type scenes.
Proof.
  unfold ensure_action_diversity, phase_a, phase_b.
  rewrite group_by_type_spec, floor_pass_spec. cbv beta iota zeta.
  rewrite ceiling_pass_spec, flat_map_map, map_map. cbn [fst snd].
  destruct (0 <? _)%Z; [|reflexivity].
  rewrite flat_map_map. reflexivity.
Qed.

(** *** Counting by category *)

Lemma of_type_app (c : string) (l1 l2 : list scene) :
  of_type c (l1 ++ l2) = of_type c l1 ++ of_type c l2.
Proof. apply filter_app. Qed.

Lemma of_type_same (c : string) (l : list scene) :
  (forall x, In x l -> get_action_type x = c) -> of_type c l = l.
Proof.
  intro H. apply filter_all. intros x Hx. unfold has_type.
  rewrite (H x Hx). apply String.eqb_refl.
Qed.

Lemma of_type_other (c : string) (l : list scene) :
  (forall x, In x l -> get_action_type x <> c) -> of_type c l = [].
Proof.
  intro H. induction l as [|x l IH]; [reflexivity|].
  rewrite of_type_cons, IH by (intros y Hy; apply H; right; exact Hy).
  destruct (String.eqb (get_action_type x) c) eqn:E; [|reflexivity].
  apply String.eqb_eq in E. exfalso. apply (H x); [left; reflexivity|exact E].
Qed.

Lemma of_type_In (c : string) (l : list scene) (x : scene) :
  In x (of_type c l) <-> In x l /\ get_action_type x = c.
Proof.
  unfold of_type, has_type. rewrite filter_In, String.eqb_eq. reflexivity.
Qed.

Lemma count_flat_map (F : string -> list scene) (c : string) (order : list string) :
  NoDup order ->
  (forall k x, In x (F k) -> get_action_type x = k) ->
  count_type c (flat_map F order) = if mem c order then length (F c) else 0%nat.
Proof.
  intros Hnd HF. unfold count_type.
  induction order as [|k order IH]; [reflexivity|].
  inversion Hnd as [|? ? Hk Hnd']; subst.
  simpl flat_map. rewrite of_type_app, length_app, (IH Hnd').
  unfold mem. simpl. fold (mem c order).
  destruct (String.eqb c k) eqn:E.
  - apply String.eqb_eq in E. subst k.
    rewrite of_type_same by apply HF.
    apply mem_not_In in Hk. rewrite Hk. simpl. lia.
  - rewrite of_type_other; [reflexivity|].
    intros x Hx Habs. apply HF in Hx. subst.
    rewrite String.eqb_refl in E. discriminate E.
Qed.

Lemma length_of_type_insert_desc (c : string) (x : scene) (l : list scene) :
  length (of_type c (insert_desc get_action_confidence x l))
  = length (of_type c (x :: l)).
Proof.
  induction l as [|y l IH]; [reflexivity|].
  simpl. destruct (Qle_bool _ _); [reflexivity|].
  rewrite of_type_cons, length_app, IH, !of_type_cons, !length_app. lia.
Qed.

Lemma count_type_sorted (c : string) (l : list scene) :
  count_type c (sorted_desc get_action_confidence l) = count_type c l.
Proof.
  unfold count_type. induction l as [|x l IH]; [reflexivity|].
  simpl. rewrite length_of_type_insert_desc, !of_type_cons, !length_app, IH.
  reflexivity.
Qed.

Lemma slice_to_In {A} (k : Z) (l : list A) (x : A) : In x (slice_to k l) -> In x l.
Proof.
  unfold slice_to. destruct (0 <=? k)%Z; intro H.
  - rewrite <- (firstn_skipn (Z.to_nat k) l). apply in_or_app. left. exact H.
  - rewrite <- (firstn_skipn (length l - Z.to_nat (- k)) l).
    apply in_or_app. left. exact H.
Qed.

Lemma slice_from_In {A} (k : Z) (l : list A) (x : A) : In x (slice_from k l) -> In x l.
Proof.
  unfold slice_from. destruct (0 <=? k)%Z; intro H.
  - rewrite <- (firstn_skipn (Z.to_nat k) l). apply in_or_app. right. exact H.
  - rewrite <- (firstn_skipn (length l - Z.to_nat (- k)) l).
    apply in_or_app. right. exact H.
Qed.

Lemma sorted_desc_In {A} (key : A -> Q) (l : list A) (x : A) :
  In x (sorted_desc key l) <-> In x l.
Proof.
  split; apply Permutation_in;
    [apply Permutation_sym|]; apply sorted_desc_perm.
Qed.

Lemma floor_of_type (min_per_type : Z) (scenes : list scene) (k : string) (x : scene) :
  In x (floor_of min_per_type scenes k) -> get_action_type x = k.
Proof.
  unfold floor_of. intro H.
  apply slice_to_In, sorted_desc_In, of_type_In in H. apply H.
Qed.

Lemma surplus_of_type (can_add min_per_type : Z) (scenes : list scene)
    (k : string) (x : scene) :
  In x (surplus_of can_add min_per_type scenes k) -> get_action_type x = k.
Proof.
  unfold surplus_of. intro H.
  apply slice_to_In, slice_from_In, sorted_desc_In, of_type_In in H. apply H.
Qed.

Lemma discovery_order_In (c : string) (scenes : list scene) :
  In c (discovery_order scenes) <-> In c (map get_action_type scenes).
Proof.
  unfold discovery_order. rewrite first_seen_In. simpl. tauto.
Qed.

Lemma of_type_absent (c : string) (scenes : list scene) :
  ~ In c (map get_action_type scenes) -> of_type c scenes = [].
Proof.
  intro H. apply of_type_other. intros x Hx E. apply H.
  rewrite <- E. apply in_map, Hx.
Qed.

(** How many scenes of category [c] each phase contributes. *)
Lemma count_type_phase_a (c : string) (min_per_type : Z) (scenes : list scene) :
  count_type c (phase_a min_per_type scenes)
  = length (floor_of min_per_type scenes c).
Proof.
  unfold phase_a.
  rewrite count_flat_map;
    [|apply first_seen_NoDup|apply floor_of_type].
  destruct (mem c (discovery_order scenes)) eqn:E; [reflexivity|].
  apply mem_not_In in E. rewrite discovery_order_In in E.
  unfold floor_of. rewrite (of_type_absent c scenes E).
  unfold slice_to. simpl.
  destruct (0 <=? min_per_type)%Z; [rewrite firstn_nil|]; reflexivity.
Qed.

Lemma count_type_phase_b (c : string) (max_per_type min_per_type : Z)
    (scenes : list scene) :
  count_type c (phase_b max_per_type min_per_type scenes)
  = if (0 <? max_per_type - min_per_type)%Z
    then length (surplus_of (max_per_type - min_per_type) min_per_type scenes c)
    else 0%nat.
Proof.
  unfold phase_b. rewrite count_type_sorted.
  destruct (0 <? max_per_type - min_per_type)%Z; [|reflexivity].
  rewrite count_flat_map;
    [|apply first_seen_NoDup|apply surplus_of_type].
  destruct (mem c (discovery_order scenes)) eqn:E; [reflexivity|].
  apply mem_not_In in E. rewrite discovery_order_In in E.
  unfold surplus_of. rewrite (of_type_absent c scenes E).
  unfold slice_to, slice_from. simpl.
  destruct (0 <=? min_per_type)%Z, (0 <=? max_per_type - min_per_type)%Z;
    rewrite ?skipn_nil, ?firstn_nil; reflexivity.
Qed.

Lemma length_sorted_desc {A} (key : A -> Q) (l : list A) :
  length (sorted_desc key l) = length l.
Proof. symmetry. apply Permutation_length, sorted_desc_perm. Qed.

Lemma length_slice_to {A} (k : Z) (l : list A) :
  Z.of_nat (length (slice_to k l))
  = if (0 <=? k)%Z then Z.min k (Z.of_nat (length l))
    else Z.max 0 (Z.of_nat (length l) + k).
Proof.
  unfold slice_to. destruct (0 <=? k)%Z eqn:E; rewrite length_firstn; lia.
Qed.

Lemma length_slice_from {A} (k : Z) (l : list A) :
  Z.of_nat (length (slice_from k l))
  = if (0 <=? k)%Z then Z.max 0 (Z.of_nat (length l) - k)
    else Z.min (- k) (Z.of_nat (length l)).
Proof.
  unfold slice_from. destruct (0 <=? k)%Z eqn:E; rewrite length_skipn; lia.
Qed.

Lemma count_type_diversity (c : string) (scenes : list scene)
    (max_per_type : option Z) (min_per_type : Z) :
  count_type c (ensure_action_diversity scenes max_per_type min_per_type)
  = (count_type c (phase_a min_per_type scenes)
     + count_type c (phase_b (resolve_max_per_type scenes max_per_type min_per_type)
                       min_per_type scenes))%nat.
Proof.
  rewrite ensure_action_diversity_spec. unfold count_type.
  rewrite of_type_app, length_app. reflexivity.
Qed.

(** C7. The balancer returns Phase A followed by Phase B. Phase A lists
    the categories in the order they first appear in the input and gives
    each its [min_per_type] best scenes, so every category has at least
    [min(min_per_type, number of its scenes)] scenes in Phase A, hence in
    the output. *)
Theorem diversity_floor (scenes : list scene) (max_per_type : option Z)
    (min_per_type : Z) (c : string) :
  let out := ensure_action_diversity scenes max_per_type min_per_type in
  out = flat_map (floor_of min_per_type scenes) (discovery_order scenes)
        ++ phase_b (resolve_max_per_type scenes max_per_type min_per_type)
             min_per_type scenes
  /\ (Z.min min_per_type (Z.of_nat (count_type c scenes))
      <= Z.of_nat (count_type c
                     (flat_map (floor_of min_per_type scenes) (discovery_order scenes))))%Z
  /\ (Z.min min_per_type (Z.of_nat (count_type c scenes))
      <= Z.of_nat (count_type c out))%Z.
Proof.
  intro out.
  assert (Ha : (Z.min min_per_type (Z.of_nat (count_type c scenes))
                <= Z.of_nat (count_type c (phase_a min_per_type scenes)))%Z).
  { rewrite count_type_phase_a. unfold floor_of.
    rewrite length_slice_to, length_sorted_desc. fold (count_type c scenes).
    destruct (0 <=? min_per_type)%Z eqn:E; lia. }
  split; [apply ensure_action_diversity_spec|]. split; [exact Ha|].
  subst out. rewrite count_type_diversity. lia.
Qed.

(** *** The derived ceiling *)

Lemma counter_add_keys (k : string) (C : list (string * nat)) :
  map fst (counter_add k C)
  = if mem k (map fst C) then map fst C else map fst C ++ [k].
Proof.
  induction C as [|[k' n] C IH]; [reflexivity|].
  simpl. unfold mem. simpl. fold (mem k (map fst C)).
  destruct (String.eqb k k'); [reflexivity|].
  simpl. rewrite IH. destruct (mem k (map fst C)); reflexivity.
Qed.

Lemma counter_fold_keys (keys : list string) (C : list (string * nat)) :
  map fst (fold_left (fun c k => counter_add k c) keys C)
  = map fst C ++ first_seen (map fst C) keys.
Proof.
  revert C. induction keys as [|k keys IH]; intro C; simpl.
  - rewrite app_nil_r. reflexivity.
  - rewrite IH, counter_add_keys.
    destruct (mem k (map fst C)); [reflexivity|].
    rewrite <- app_assoc. simpl. f_equal. f_equal.
    apply first_seen_ext. intro x. rewrite in_app_iff. simpl. tauto.
Qed.

Lemma length_Counter (scenes : list scene) :
  length (Counter (map get_action_type scenes)) = length (discovery_order scenes).
Proof.
  unfold Counter, discovery_order.
  rewrite <- (length_map fst), counter_fold_keys. reflexivity.
Qed.

Lemma discovery_order_nil (scenes : list scene) :
  length (discovery_order scenes) = 0%nat -> scenes = [].
Proof.
  destruct scenes as [|s l]; [reflexivity|]. discriminate.
Qed.

Lemma py_int_floor (x : Q) : 0 <= x -> py_int x = Qfloor x.
Proof.
  destruct x as [n d]. unfold Qle, py_int, Qfloor. simpl. intro H.
  apply Z.quot_div_nonneg; lia.
Qed.

Lemma resolve_max_derived (scenes : list scene) (min_per_type : Z) :
  resolve_max_per_type scenes None min_per_type
  = if (length (discovery_order scenes) =? 0)%nat then Z.of_nat (length scenes)
    else Z.max
           (Qfloor (inject_Z (Z.of_nat (length scenes))
                    / inject_Z (Z.of_nat (length (discovery_order scenes)))
                    * (3 # 2)))
           (min_per_type + 1).
Proof.
  unfold resolve_max_per_type. rewrite length_Counter.
  destruct (length (discovery_order scenes)) as [|k] eqn:E; [reflexivity|].
  simpl Nat.ltb. simpl Nat.eqb. cbv iota.
  rewrite py_int_floor; [reflexivity|].
  apply Qmult_le_0_compat; [|unfold Qle; simpl; lia].
  apply Qmult_le_0_compat; [unfold Qle; simpl; lia|].
  apply Qinv_le_0_compat. unfold Qle. simpl. lia.
Qed.

(** The count of a category in the output, against floor and ceiling. *)
Lemma count_type_diversity_le (c : string) (scenes : list scene)
    (max_per_type : option Z) (min_per_type : Z) :
  (0 <= min_per_type)%Z ->
  let m := resolve_max_per_type scenes max_per_type min_per_type in
  (Z.of_nat (count_type c (ensure_action_diversity scenes max_per_type min_per_type))
   <= Z.min (Z.of_nat (count_type c scenes)) (Z.max min_per_type m))%Z.
Proof.
  intros Hmin m. rewrite count_type_diversity, count_type_phase_a, count_type_phase_b.
  fold m. unfold floor_of, surplus_of.
  rewrite Nat2Z.inj_add, length_slice_to, length_sorted_desc.
  fold (count_type c scenes).
  destruct (0 <? m - min_per_type)%Z eqn:E.
  - rewrite length_slice_to, length_slice_from, length_sorted_desc.
    fold (count_type c scenes).
    destruct (0 <=? min_per_type)%Z eqn:E1, (0 <=? m - min_per_type)%Z eqn:E2; lia.
  - destruct (0 <=? min_per_type)%Z eqn:E1; lia.
Qed.

(** C8 as stated fails for a negative floor: with [min_per_type = -1]
    and [max_per_type = 0 >= -1], the slice [[:-1]] keeps all but the last
    scene of a category and the ceiling pass adds that one back. *)
Lemma ceiling_exceeded_negative_floor :
  (-1 <= 0)%Z
  /\ ensure_action_diversity
       [sc "chase" (9 # 10) 10; sc "chase" (8 # 10) 10] (Some 0%Z) (-1)
     = [sc "chase" (9 # 10) 10; sc "chase" (8 # 10) 10]
  /\ ~ (Z.of_nat (count_type "chase"
                    (ensure_action_diversity
                       [sc "chase" (9 # 10) 10; sc "chase" (8 # 10) 10] (Some 0%Z) (-1)))
        <= 0)%Z.
Proof.
  split; [lia|]. split; [reflexivity|]. vm_compute. intro H. apply H. reflexivity.
Qed.

(** C8 (amended). Without a caller-supplied ceiling, [max_per_type] is
    [max(floor(scenes / categories * 1.5), min_per_type + 1)], and the
    number of scenes when there is no category. For [min_per_type >= 0],
    and a supplied ceiling that is at least [min_per_type], no category
    has more than [max_per_type] scenes in the balancer's output. *)
Theorem diversity_ceiling (scenes : list scene) (max_per_type : option Z)
    (min_per_type : Z) (c : string) :
  resolve_max_per_type scenes None min_per_type
  = (if (length (discovery_order scenes) =? 0)%nat then Z.of_nat (length scenes)
     else Z.max
            (Qfloor (inject_Z (Z.of_nat (length scenes))
                     / inject_Z (Z.of_nat (length (discovery_order scenes)))
                     * (3 # 2)))
            (min_per_type + 1))
  /\ ((0 <= min_per_type)%Z ->
      (forall m, max_per_type = Some m -> (min_per_type <= m)%Z) ->
      (Z.of_nat (count_type c (ensure_action_diversity scenes max_per_type min_per_type))
       <= resolve_max_per_type scenes max_per_type min_per_type)%Z).
Proof.
  split; [apply resolve_max_derived|].
  intros Hmin Hmax.
  pose proof (count_type_diversity_le c scenes max_per_type min_per_type Hmin) as H.
  cbv zeta in H.
  destruct max_per_type as [m|].
  - specialize (Hmax m eq_refl). simpl in *. lia.
  - rewrite resolve_max_derived in *.
    destruct (length (discovery_order scenes) =? 0)%nat eqn:E.
    + apply Nat.eqb_eq, discovery_order_nil in E. subst scenes.
      unfold count_type, of_type in *. simpl in *. lia.
    + lia.
Qed.

Lemma diversity_ceiling_witness :
  (Z.of_nat (count_type "chase"
               (ensure_action_diversity
                  [sc "chase" (9 # 10) 10; sc "chase" (8 # 10) 10; sc "chase" (7 # 10) 10;
                   sc "fight" (6 # 10) 10]
                  (Some 2%Z) 1))
   <= 2)%Z.
Proof.
  apply (diversity_ceiling
           [sc "chase" (9 # 10) 10; sc "chase" (8 # 10) 10; sc "chase" (7 # 10) 10;
            sc "fight" (6 # 10) 10]
           (Some 2%Z) 1 "chase").
  - lia.
  - intros m H. injection H as <-. lia.
Defined.

(** ** Scenes with absent fields *)

Lemma filter_map_commute {A} (p : A -> bool) (f : A -> A) (l : list A) :
  (forall x, p (f x) = p x) -> filter p (map f l) = map f (filter p l).
Proof.
  intro H. induction l as [|x l IH]; [reflexivity|].
  simpl. rewrite H, IH. destruct (p x); reflexivity.
Qed.

Lemma insert_desc_map {A} (key : A -> Q) (f : A -> A) (x : A) (l : list A) :
  (forall y, key (f y) = key y) ->
  insert_desc key (f x) (map f l) = map f (insert_desc key x l).
Proof.
  intro H. induction l as [|y l IH]; [reflexivity|].
  simpl. rewrite !H, IH. destruct (Qle_bool _ _); reflexivity.
Qed.

Lemma sorted_desc_map {A} (key : A -> Q) (f : A -> A) (l : list A) :
  (forall y, key (f y) = key y) ->
  sorted_desc key (map f l) = map f (sorted_desc key l).
Proof.
  intro H. induction l as [|x l IH]; [reflexivity|].
  simpl. rewrite IH. apply insert_desc_map, H.
Qed.

Lemma pack_step_map (f : scene -> scene) (target_duration : Q)
    (st : pack_state) (s : scene) :
  get_duration (f s) = get_duration s ->
  pack_step target_duration (map_selection f st) (f s)
  = map_selection f (pack_step target_duration st s).
Proof.
  intro H. unfold pack_step. simpl. rewrite H.
  destruct (stopped st); [reflexivity|].
  destruct (Qlt_bool _ _); [reflexivity|].
  unfold map_selection. simpl. rewrite map_app. reflexivity.
Qed.

Lemma pack_loop_map (f : scene -> scene) (target_duration : Q)
    (l : list scene) (st : pack_state) :
  (forall s, get_duration (f s) = get_duration s) ->
  pack_loop target_duration (map f l) (map_selection f st)
  = map_selection f (pack_loop target_duration l st).
Proof.
  intro H. revert st. induction l as [|s l IH]; intro st; [reflexivity|].
  simpl map. rewrite !pack_loop_cons, pack_step_map by apply H. apply IH.
Qed.

Lemma with_defaults_reads (s : scene) :
  get_is_action_scene (with_defaults s) = get_is_action_scene s
  /\ get_action_confidence (with_defaults s) = get_action_confidence s
  /\ get_duration (with_defaults s) = get_duration s
  /\ get_action_type (with_defaults s) = get_action_type s.
Proof. repeat split. Qed.

(** Within the bound and not stopped, a scene without a duration is
    appended and leaves the running total where it was. *)
Lemma pack_step_no_duration (target_duration : Q) (st : pack_state) (s : scene) :
  duration s = None -> stopped st = false ->
  current_duration st <= target_duration * (12 # 10) ->
  final_selection (pack_step target_duration st s) = final_selection st ++ [s]
  /\ current_duration (pack_step target_duration st s) == current_duration st.
Proof.
  intros Hd Hs Hb. unfold pack_step, get_duration. rewrite Hs, Hd. simpl.
  assert (E : Qlt_bool (target_duration * (12 # 10)) (current_duration st + 0) = false).
  { apply Qlt_bool_false_iff. lra. }
  rewrite E. simpl. split; [reflexivity|lra].
Qed.

Lemma pack_loop_bound (target_duration : Q) (l : list scene) :
  0 <= target_duration ->
  current_duration (pack_loop target_duration l pack_init) <= target_duration * (12 # 10).
Proof.
  intro H.
  destruct (pack_loop_inv target_duration l pack_init (pack_init_inv target_duration))
    as [Hsum Hb].
  destruct (final_selection (pack_loop target_duration l pack_init)) eqn:E.
  - rewrite Hsum. simpl. lra.
  - apply Hb. congruence.
Qed.

(** C10 as stated fails for a negative target: the scene without a
    duration passes the filter, is the first the loop meets, and is
    skipped, because [0 + 0.0 > -10 * 1.2]. *)
Lemma missing_duration_skipped :
  duration no_duration = None
  /\ filter_action_scenes [no_duration] (5 # 10) 0 60 = [no_duration]
  /\ pack_step (-10) pack_init no_duration = pack_init
  /\ select_sequences_for_supercut [no_duration] (-10) (5 # 10) 0 60 false None = [].
Proof. repeat split. Qed.

Lemma slice_to_map {A} (f : A -> A) (k : Z) (l : list A) :
  slice_to k (map f l) = map f (slice_to k l).
Proof.
  unfold slice_to. rewrite length_map.
  destruct (0 <=? k)%Z; apply firstn_map.
Qed.

Lemma slice_from_map {A} (f : A -> A) (k : Z) (l : list A) :
  slice_from k (map f l) = map f (slice_from k l).
Proof.
  unfold slice_from. rewrite length_map.
  destruct (0 <=? k)%Z; apply skipn_map.
Qed.

Lemma map_flat_map {A B} (f : B -> B) (F : A -> list B) (l : list A) :
  flat_map (fun x => map f (F x)) l = map f (flat_map F l).
Proof.
  induction l as [|x l IH]; [reflexivity|].
  simpl. rewrite IH, map_app. reflexivity.
Qed.

Section Relabelling.

(** A change of the scene records that the selection cannot see. *)
Variable f : scene -> scene.
Hypothesis f_flag : forall s, get_is_action_scene (f s) = get_is_action_scene s.
Hypothesis f_confidence : forall s, get_action_confidence (f s) = get_action_confidence s.
Hypothesis f_duration : forall s, get_duration (f s) = get_duration s.
Hypothesis f_type : forall s, get_action_type (f s) = get_action_type s.

Lemma filter_relabel (scenes : list scene) (min_confidence min_duration max_duration : Q) :
  filter_action_scenes (map f scenes) min_confidence min_duration max_duration
  = map f (filter_action_scenes scenes min_confidence min_duration max_duration).
Proof.
  apply filter_map_commute. intro s. unfold keeps.
  rewrite f_flag, f_confidence, f_duration. reflexivity.
Qed.

Lemma rank_relabel (scenes : list scene) :
  rank_scenes_by_action_intensity (map f scenes)
  = map f (rank_scenes_by_action_intensity scenes).
Proof. apply sorted_desc_map, f_confidence. Qed.

Lemma types_relabel (scenes : list scene) :
  map get_action_type (map f scenes) = map get_action_type scenes.
Proof. rewrite map_map. apply map_ext, f_type. Qed.

Lemma of_type_relabel (c : string) (scenes : list scene) :
  of_type c (map f scenes) = map f (of_type c scenes).
Proof.
  apply filter_map_commute. intro s. unfold has_type. rewrite f_type. reflexivity.
Qed.

Lemma resolve_relabel (scenes : list scene) (max_per_type : option Z) (min_per_type : Z) :
  resolve_max_per_type (map f scenes) max_per_type min_per_type
  = resolve_max_per_type scenes max_per_type min_per_type.
Proof.
  unfold resolve_max_per_type. rewrite types_relabel, length_map. reflexivity.
Qed.

Lemma diversity_relabel (scenes : list scene) (max_per_type : option Z)
    (min_per_type : Z) :
  ensure_action_diversity (map f scenes) max_per_type min_per_type
  = map f (ensure_action_diversity scenes max_per_type min_per_type).
Proof.
  rewrite !ensure_action_diversity_spec, map_app, resolve_relabel.
  unfold phase_a, phase_b, discovery_order. rewrite types_relabel.
  f_equal.
  - rewrite <- map_flat_map. apply flat_map_ext. intro c. unfold floor_of.
    rewrite of_type_relabel, sorted_desc_map, slice_to_map by apply f_confidence.
    reflexivity.
  - rewrite <- sorted_desc_map by apply f_confidence. f_equal.
    destruct (0 <? _)%Z; [|reflexivity].
    rewrite <- map_flat_map. apply flat_map_ext. intro c. unfold surplus_of.
    rewrite of_type_relabel, sorted_desc_map, slice_from_map, slice_to_map
      by apply f_confidence.
    reflexivity.
Qed.

Lemma select_state_relabel (filtered : list scene) (target_duration : Q)
    (ensure_diversity : bool) (max_per_type : option Z) :
  select_state (map f filtered) target_duration ensure_diversity max_per_type
  = map_selection f
      (select_state filtered target_duration ensure_diversity max_per_type).
Proof.
  unfold select_state. rewrite rank_relabel.
  change pack_init with (map_selection f pack_init) at 1.
  destruct ensure_diversity.
  - rewrite diversity_relabel. apply pack_loop_map, f_duration.
  - apply pack_loop_map, f_duration.
Qed.

Lemma select_relabel (scenes : list scene)
    (target_duration min_confidence min_duration max_duration : Q)
    (ensure_diversity : bool) (max_per_type : option Z) :
  select_sequences_for_supercut (map f scenes) target_duration min_confidence
    min_duration max_duration ensure_diversity max_per_type
  = map f (select_sequences_for_supercut scenes target_duration min_confidence
             min_duration max_duration ensure_diversity max_per_type)
  /\ achieved_duration (map f scenes) target_duration min_confidence
       min_duration max_duration ensure_diversity max_per_type
     = achieved_duration scenes target_duration min_confidence
         min_duration max_duration ensure_diversity max_per_type.
Proof.
  unfold select_sequences_for_supercut, achieved_duration.
  rewrite filter_relabel.
  destruct (filter_action_scenes scenes _ _ _) as [|x l]; [split; reflexivity|].
  change (map f (x :: l)) with (f x :: map f l) at 1 3.
  cbv iota.
  change (f x :: map f l) with (map f (x :: l)).
  rewrite select_state_relabel. split; reflexivity.
Qed.

End Relabelling.

(** C10 (amended). No selection operation raises on a scene with absent
    fields. A scene without [is_action_scene] never passes the filter.
    The filter, the ranker, the balancer and the packing loop treat a
    scene exactly as they treat it with [is_action_scene = False],
    [action_confidence = 0.0] and [duration = 0.0] written in where absent.
    For a target that is not negative, a scene without a duration that the
    loop reaches before it stops is appended and leaves the running total
    unchanged. *)
Theorem absent_fields_defaults (scenes : list scene)
    (target_duration min_confidence min_duration max_duration : Q)
    (ensure_diversity : bool) (max_per_type : option Z) :
  snd (select_sequences_for_supercut_run scenes target_duration min_confidence
         min_duration max_duration ensure_diversity max_per_type)
  = Returned (select_sequences_for_supercut scenes target_duration min_confidence
                min_duration max_duration ensure_diversity max_per_type)
  /\ (forall s, is_action_scene s = None ->
        ~ In s (filter_action_scenes scenes min_confidence min_duration max_duration))
  /\ filter_action_scenes (map with_defaults scenes) min_confidence min_duration max_duration
     = map with_defaults
         (filter_action_scenes scenes min_confidence min_duration max_duration)
  /\ rank_scenes_by_action_intensity (map with_defaults scenes)
     = map with_defaults (rank_scenes_by_action_intensity scenes)
  /\ select_sequences_for_supercut (map with_defaults scenes) target_duration
       min_confidence min_duration max_duration ensure_diversity max_per_type
     = map with_defaults
         (select_sequences_for_supercut scenes target_duration min_confidence
            min_duration max_duration ensure_diversity max_per_type)
  /\ achieved_duration (map with_defaults scenes) target_duration
       min_confidence min_duration max_duration ensure_diversity max_per_type
     = achieved_duration scenes target_duration min_confidence
         min_duration max_duration ensure_diversity max_per_type
  /\ (0 <= target_duration ->
      forall reached s,
        let st := pack_loop target_duration reached pack_init in
        duration s = None -> stopped st = false ->
        final_selection (pack_step target_duration st s) = final_selection st ++ [s]
        /\ current_duration (pack_step target_duration st s) == current_duration st).
Proof.
  split.
  { destruct (select_run_returns scenes target_duration min_confidence min_duration
                max_duration ensure_diversity max_per_type) as [log H].
    rewrite H. reflexivity. }
  split.
  { intros s Hs Hin. apply filter_action_scenes_In in Hin.
    destruct Hin as [_ [Hflag _]].
    unfold get_is_action_scene in Hflag. rewrite Hs in Hflag. discriminate Hflag. }
  split; [apply filter_relabel; reflexivity|].
  split; [apply rank_relabel; reflexivity|].
  split; [apply select_relabel; reflexivity|].
  split; [apply select_relabel; reflexivity|].
  intros Ht reached s st Hd Hs.
  apply pack_step_no_duration; try assumption.
  apply pack_loop_bound, Ht.
Qed.

Lemma absent_fields_defaults_witness :
  final_selection (pack_step 30 (pack_loop 30 [sc "fight" (92 # 100) 20] pack_init) no_duration)
  = [sc "fight" (92 # 100) 20; no_duration].
Proof.
  apply (absent_fields_defaults [] 30 0 0 60 false None); [|reflexivity|reflexivity].
  unfold Qle. simpl. lia.
Defined.

(** ** analyze_scene on long scenes *)

Lemma py_min_cases (x y : Q) :
  (y < x /\ py_min x y = y) \/ (x <= y /\ py_min x y = x).
Proof.
  unfold py_min. destruct (Qlt_bool y x) eqn:E.
  - left. split; [apply Qlt_bool_iff, E|reflexivity].
  - right. split; [apply Qlt_bool_false_iff, E|reflexivity].
Qed.

(** One iteration of the window loop lowers [window_fuel]. *)
Lemma window_fuel_decreases (current_time end_time : Q) :
  current_time < end_time - 1 ->
  (window_fuel (py_min (current_time + 5) end_time) end_time
   < window_fuel current_time end_time)%nat.
Proof.
  intro H. unfold window_fuel.
  pose proof (Qle_ceiling (end_time - current_time)) as Hc.
  assert (H2 : (2 <= Qceiling (end_time - current_time))%Z).
  { assert (Hlt : inject_Z 1 < inject_Z (Qceiling (end_time - current_time))).
    { eapply Qlt_le_trans; [|exact Hc]. change (inject_Z 1) with 1. lra. }
    rewrite <- Zlt_Qlt in Hlt. lia. }
  assert (Hnext : (Qceiling (end_time - py_min (current_time + 5) end_time)
                   <= Qceiling (end_time - current_time) - 1)%Z).
  { rewrite <- (Qceiling_Z (Qceiling (end_time - current_time) - 1)).
    apply Qceiling_resp_le.
    replace (Qceiling (end_time - current_time) - 1)%Z
      with (Qceiling (end_time - current_time) + -1)%Z by lia.
    rewrite inject_Z_plus. change (inject_Z (-1)) with (-1).
    destruct (py_min_cases (current_time + 5) end_time) as [[_ ->]|[_ ->]].
    - apply Qle_trans with 1; [lra|].
      assert (Hq : inject_Z 2 <= inject_Z (Qceiling (end_time - current_time)))
        by (rewrite <- Zle_Qle; exact H2).
      change (inject_Z 2) with 2 in Hq. lra.
    - lra. }
  lia.
Qed.

(** With at least [window_fuel] iterations allowed the loop runs to its
    exit test: the windows do not depend on the allowance. *)
Lemma windows_from_enough (end_time : Q) (fuel fuel' : nat) (current_time : Q) :
  (window_fuel current_time end_time <= fuel)%nat ->
  (window_fuel current_time end_time <= fuel')%nat ->
  windows_from fuel current_time end_time = windows_from fuel' current_time end_time.
Proof.
  revert fuel' current_time.
  induction fuel as [|fuel IH]; intros fuel' current_time H H'.
  - destruct fuel'; simpl; destruct (Qlt_bool current_time (end_time - 1)) eqn:E;
      try reflexivity.
    apply Qlt_bool_iff, window_fuel_decreases in E. lia.
  - simpl. destruct (Qlt_bool current_time (end_time - 1)) eqn:E.
    + pose proof E as E'. apply Qlt_bool_iff, window_fuel_decreases in E'.
      destruct fuel' as [|fuel']; [lia|].
      simpl. rewrite E. f_equal. apply IH; lia.
    + destruct fuel'; simpl; rewrite E; reflexivity.
Qed.

(** The loop equation of [windows]. *)
Lemma windows_unfold (start_time end_time : Q) :
  windows start_time end_time
  = if Qlt_bool start_time (end_time - 1)
    then (start_time, py_min (start_time + 5) end_time)
         :: windows (py_min (start_time + 5) end_time) end_time
    else [].
Proof.
  unfold windows at 1.
  destruct (Qlt_bool start_time (end_time - 1)) eqn:E.
  - pose proof E as E'. apply Qlt_bool_iff, window_fuel_decreases in E'.
    destruct (window_fuel start_time end_time) as [|n] eqn:En; [lia|].
    simpl. rewrite E. f_equal. unfold windows. apply windows_from_enough; lia.
  - destruct (window_fuel start_time end_time); simpl; rewrite E; reflexivity.
Qed.

Lemma max_from_In {A} (key : A -> Q) (l : list A) (best : A) :
  In (max_from key best l) (best :: l).
Proof.
  revert best. induction l as [|x l IH]; intro best; simpl.
  - left. reflexivity.
  - destruct (IH (if Qlt_bool (key best) (key x) then x else best)) as [H|H].
    + destruct (Qlt_bool (key best) (key x)); rewrite <- H; tauto.
    + right. right. exact H.
Qed.


(** The selection returns records of its input, as they are. *)
Lemma diversity_In (scenes : list scene) (max_per_type : option Z)
    (min_per_type : Z) (x : scene) :
  In x (ensure_action_diversity scenes max_per_type min_per_type) -> In x scenes.
Proof.
  rewrite ensure_action_diversity_spec, in_app_iff.
  unfold phase_a, phase_b. rewrite sorted_desc_In.
  intros [H|H].
  - apply in_flat_map in H. destruct H as (c & _ & H).
    unfold floor_of in H.
    apply slice_to_In, sorted_desc_In, of_type_In in H. apply H.
  - destruct (0 <? _)%Z; [|destruct H].
    apply in_flat_map in H. destruct H as (c & _ & H).
    unfold surplus_of in H.
    apply slice_to_In, slice_from_In, sorted_desc_In, of_type_In in H. apply H.
Qed.



Section AnalyzeScene.

Variable classify_action : string -> Q -> Q -> classification.


End AnalyzeScene.


(** ** Further properties of the selection *)

Lemma select_In_filtered (scenes : list scene)
    (target_duration min_confidence min_duration max_duration : Q)
    (ensure_diversity : bool) (max_per_type : option Z) (x : scene) :
  In x (select_sequences_for_supercut scenes target_duration min_confidence
          min_duration max_duration ensure_diversity max_per_type) ->
  In x (filter_action_scenes scenes min_confidence min_duration max_duration).
Proof.
  unfold select_sequences_for_supercut, select_state.
  destruct (filter_action_scenes scenes _ _ _) as [|y l] eqn:E; [intros []|].
  rewrite pack_loop_accepted by reflexivity. simpl. intro H.
  apply accepted_In in H.
  assert (Hr : In x (rank_scenes_by_action_intensity (y :: l))).
  { destruct ensure_diversity; [eapply diversity_In, H|exact H]. }
  apply sorted_desc_In in Hr. exact Hr.
Qed.

Lemma select_survives (scenes : list scene)
    (target_duration min_confidence min_duration max_duration : Q)
    (ensure_diversity : bool) (max_per_type : option Z) (x : scene) :
  In x (select_sequences_for_supercut scenes target_duration min_confidence
          min_duration max_duration ensure_diversity max_per_type) ->
  In x scenes /\ survives min_confidence min_duration max_duration x.
Proof.
  intro H. apply select_In_filtered in H.
  apply filter_action_scenes_In in H. exact H.
Qed.

(** X1. Whatever the target and with or without balancing, every scene
    the pipeline selects is a scene of the input that is an action scene,
    has confidence at least [min_confidence] and a duration within
    [[min_duration, max_duration]]. *)
Theorem selected_scenes_survive (scenes : list scene)
    (target_duration min_confidence min_duration max_duration : Q)
    (ensure_diversity : bool) (max_per_type : option Z) (x : scene) :
  In x (select_sequences_for_supercut scenes target_duration min_confidence
          min_duration max_duration ensure_diversity max_per_type) ->
  In x scenes /\ survives min_confidence min_duration max_duration x.
Proof.
  intro H. apply select_In_filtered in H.
  apply filter_action_scenes_In in H. exact H.
Qed.

Lemma selected_scenes_survive_witness :
  In (sc "fight" (92 # 100) 20)
     [sc "chase" (85 # 100) 15; sc "fight" (92 # 100) 20; sc "chase" (40 # 100) 5]
  /\ survives (5 # 10) 3 60 (sc "fight" (92 # 100) 20).
Proof.
  apply (selected_scenes_survive
           [sc "chase" (85 # 100) 15; sc "fight" (92 # 100) 20; sc "chase" (40 # 100) 5]
           30 (5 # 10) 3 60 true None).
  vm_compute. left. reflexivity.
Defined.

(** X2. The segments handed to the editor are the selected scenes in
    order, one segment per scene; each comes from an input scene that
    passed the filter and carries that scene's path, times, category and
    confidence, so every segment's confidence is at least
    [min_confidence]. *)
Theorem segments_of_selection (scenes : list scene)
    (target_duration min_confidence min_duration max_duration : Q)
    (ensure_diversity : bool) (max_per_type : option Z) :
  let selection :=
    select_sequences_for_supercut scenes target_duration min_confidence
      min_duration max_duration ensure_diversity max_per_type in
  length (get_supercut_segments selection) = length selection
  /\ map seg_action_confidence (get_supercut_segments selection)
     = map get_action_confidence selection
  /\ forall g, In g (get_supercut_segments selection) ->
       min_confidence <= seg_action_confidence g
       /\ exists x,
            In x scenes /\ survives min_confidence min_duration max_duration x
            /\ seg_video_path g = get (video_path x) ""%string
            /\ seg_start_time g = get (start_time x) 0
            /\ seg_end_time g = get (end_time x) 0
            /\ seg_action_type g = get_action_type x
            /\ seg_action_confidence g = get_action_confidence x.
Proof.
  intro selection. unfold get_supercut_segments.
  split; [apply length_map|]. split; [rewrite map_map; reflexivity|].
  intros g Hg. apply in_map_iff in Hg. destruct Hg as (x & <- & Hx).
  apply select_survives in Hx. destruct Hx as [Hin Hs].
  split; [apply Hs|].
  exists x. repeat split; try assumption; apply Hs.
Qed.

(** X3. Without diversity balancing the selection is in descending order
    of confidence. *)
Theorem selection_ranked_without_diversity (scenes : list scene)
    (target_duration min_confidence min_duration max_duration : Q)
    (max_per_type : option Z) :
  StronglySorted (desc get_action_confidence)
    (select_sequences_for_supercut scenes target_duration min_confidence
       min_duration max_duration false max_per_type).
Proof.
  rewrite select_without_diversity. apply accepted_sorted, sorted_desc_sorted.
Qed.

Lemma filter_filter_implied {A} (p q : A -> bool) (l : list A) :
  (forall x, p x = true -> q x = true) ->
  filter p (filter q l) = filter p l.
Proof.
  intro H. induction l as [|x l IH]; [reflexivity|].
  simpl. destruct (q x) eqn:Eq; simpl.
  - rewrite IH. reflexivity.
  - rewrite IH. destruct (p x) eqn:Ep; [|reflexivity].
    apply H in Ep. congruence.
Qed.

Lemma length_filter_le {A} (p : A -> bool) (l : list A) :
  (length (filter p l) <= length l)%nat.
Proof.
  induction l as [|x l IH]; simpl; [lia|]. destruct (p x); simpl; lia.
Qed.

(** X4. Tightening the filter only removes scenes: with a higher
    confidence threshold and a narrower duration window, the filtered list
    is what the tighter filter keeps of the looser filter's result, so it
    is never longer. *)
Theorem filter_monotone (scenes : list scene)
    (min_confidence min_duration max_duration : Q)
    (min_confidence' min_duration' max_duration' : Q) :
  min_confidence <= min_confidence' ->
  min_duration <= min_duration' ->
  max_duration' <= max_duration ->
  filter_action_scenes scenes min_confidence' min_duration' max_duration'
  = filter_action_scenes
      (filter_action_scenes scenes min_confidence min_duration max_duration)
      min_confidence' min_duration' max_duration'
  /\ (length (filter_action_scenes scenes min_confidence' min_duration' max_duration')
      <= length (filter_action_scenes scenes min_confidence min_duration max_duration))%nat.
Proof.
  intros Hc Hd HD.
  assert (E : filter_action_scenes scenes min_confidence' min_duration' max_duration'
              = filter_action_scenes
                  (filter_action_scenes scenes min_confidence min_duration max_duration)
                  min_confidence' min_duration' max_duration').
  { unfold filter_action_scenes. symmetry. apply filter_filter_implied.
    intros x Hx. apply keeps_iff in Hx. apply keeps_iff.
    destruct Hx as (H1 & H2 & H3 & H4).
    repeat split; [exact H1| | |]; eapply Qle_trans; eassumption. }
  split; [exact E|].
  rewrite E. unfold filter_action_scenes at 1. apply length_filter_le.
Qed.

Lemma filter_monotone_witness :
  (length (filter_action_scenes
             [sc "chase" (85 # 100) 15; sc "fight" (92 # 100) 20; sc "chase" (40 # 100) 5]
             (9 # 10) 3 60)
   <= length (filter_action_scenes
                [sc "chase" (85 # 100) 15; sc "fight" (92 # 100) 20; sc "chase" (40 # 100) 5]
                (5 # 10) 3 60))%nat.
Proof.
  apply (filter_monotone
           [sc "chase" (85 # 100) 15; sc "fight" (92 # 100) 20; sc "chase" (40 # 100) 5]
           (5 # 10) 3 60 (9 # 10) 3 60);
    unfold Qle; simpl; lia.
Defined.

Lemma StronglySorted_filter {A} (R : A -> A -> Prop) (p : A -> bool) (l : list A) :
  StronglySorted R l -> StronglySorted R (filter p l).
Proof.
  induction 1 as [|x l Hs IH Hall]; simpl; [constructor|].
  destruct (p x); [|exact IH].
  constructor; [exact IH|].
  rewrite Forall_forall in *. intros y Hy. apply filter_In in Hy. apply Hall, Hy.
Qed.

Lemma filter_comm {A} (p q : A -> bool) (l : list A) :
  filter p (filter q l) = filter q (filter p l).
Proof.
  induction l as [|x l IH]; [reflexivity|].
  simpl. destruct (p x) eqn:Ep, (q x) eqn:Eq; simpl; rewrite ?Ep, ?Eq, IH; reflexivity.
Qed.

(** X5. Filtering and ranking commute: ranking the input and then
    filtering gives the list the pipeline gets by filtering first. *)
Theorem filter_rank_commute (scenes : list scene)
    (min_confidence min_duration max_duration : Q) :
  filter_action_scenes (rank_scenes_by_action_intensity scenes)
    min_confidence min_duration max_duration
  = rank_scenes_by_action_intensity
      (filter_action_scenes scenes min_confidence min_duration max_duration).
Proof.
  unfold filter_action_scenes, rank_scenes_by_action_intensity.
  apply (stable_sort_unique get_action_confidence).
  - apply StronglySorted_filter, sorted_desc_sorted.
  - apply sorted_desc_sorted.
  - intro c. rewrite filter_comm, !sorted_desc_stable. apply filter_comm.
Qed.

(** ** Further properties of the balancer *)

(** X6. With a floor that is not negative, and a supplied ceiling that is
    at least the floor, the balancer keeps of every category exactly
    [min(number of its scenes, max_per_type)] scenes, where [max_per_type]
    is the supplied or the derived ceiling. *)
Theorem diversity_exact_count (scenes : list scene) (max_per_type : option Z)
    (min_per_type : Z) (c : string) :
  (0 <= min_per_type)%Z ->
  (forall m, max_per_type = Some m -> (min_per_type <= m)%Z) ->
  Z.of_nat (count_type c (ensure_action_diversity scenes max_per_type min_per_type))
  = Z.min (Z.of_nat (count_type c scenes))
      (resolve_max_per_type scenes max_per_type min_per_type).
Proof.
  intros Hmin Hmax.
  rewrite count_type_diversity, count_type_phase_a, count_type_phase_b.
  set (m := resolve_max_per_type scenes max_per_type min_per_type).
  assert (Hm : (min_per_type <= m)%Z \/ scenes = []).
  { subst m. destruct max_per_type as [m'|].
    - left. simpl. apply Hmax. reflexivity.
    - rewrite resolve_max_derived.
      destruct (length (discovery_order scenes) =? 0)%nat eqn:E.
      + right. apply Nat.eqb_eq, discovery_order_nil in E. exact E.
      + left. lia. }
  assert (H0 : scenes = [] -> (0 <= m)%Z).
  { intros ->. subst m. destruct max_per_type as [m'|]; simpl.
    - specialize (Hmax m' eq_refl). lia.
    - lia. }
  assert (Hn : scenes = [] -> count_type c scenes = 0%nat) by (intros ->; reflexivity).
  unfold floor_of, surplus_of.
  rewrite Nat2Z.inj_add, length_slice_to, length_sorted_desc.
  fold (count_type c scenes).
  destruct (0 <? m - min_per_type)%Z eqn:E.
  - rewrite length_slice_to, length_slice_from, length_sorted_desc.
    fold (count_type c scenes).
    destruct (0 <=? min_per_type)%Z eqn:E1, (0 <=? m - min_per_type)%Z eqn:E2; lia.
  - destruct (0 <=? min_per_type)%Z eqn:E1; [|lia].
    destruct Hm as [Hm|Hm]; [lia|].
    specialize (H0 Hm). specialize (Hn Hm). lia.
Qed.

Lemma diversity_exact_count_witness :
  Z.of_nat (count_type "chase"
              (ensure_action_diversity
                 [sc "chase" (9 # 10) 10; sc "chase" (8 # 10) 10; sc "chase" (7 # 10) 10;
                  sc "fight" (6 # 10) 10]
                 (Some 2%Z) 1))
  = Z.min (Z.of_nat (count_type "chase"
                       [sc "chase" (9 # 10) 10; sc "chase" (8 # 10) 10;
                        sc "chase" (7 # 10) 10; sc "fight" (6 # 10) 10]))
      (resolve_max_per_type
         [sc "chase" (9 # 10) 10; sc "chase" (8 # 10) 10; sc "chase" (7 # 10) 10;
          sc "fight" (6 # 10) 10]
         (Some 2%Z) 1).
Proof.
  apply (diversity_exact_count
           [sc "chase" (9 # 10) 10; sc "chase" (8 # 10) 10; sc "chase" (7 # 10) 10;
            sc "fight" (6 # 10) 10]
           (Some 2%Z) 1 "chase").
  - lia.
  - intros m H. injection H as <-. lia.
Defined.

(** *** Nothing is duplicated *)

Lemma selected_from_refl (l : list scene) : selected_from l l.
Proof. exists []. rewrite app_nil_r. apply Permutation_refl. Qed.

Lemma selected_from_trans (l1 l2 l3 : list scene) :
  selected_from l1 l2 -> selected_from l2 l3 -> selected_from l1 l3.
Proof.
  intros [r1 H1] [r2 H2]. exists (r1 ++ r2).
  rewrite app_assoc. eapply perm_trans; [|exact H2].
  apply Permutation_app_tail, H1.
Qed.

Lemma selected_from_perm (l1 l2 : list scene) :
  Permutation l1 l2 -> selected_from l1 l2.
Proof. intro H. exists []. rewrite app_nil_r. exact H. Qed.

Lemma selected_from_app (l1 l2 : list scene) : selected_from l1 (l1 ++ l2).
Proof. exists l2. apply Permutation_refl. Qed.

Lemma selected_from_cons (x : scene) (l1 l2 : list scene) :
  selected_from l1 l2 -> selected_from (x :: l1) (x :: l2).
Proof. intros [r H]. exists r. simpl. apply perm_skip, H. Qed.

Lemma selected_from_skip (x : scene) (l1 l2 : list scene) :
  selected_from l1 l2 -> selected_from l1 (x :: l2).
Proof.
  intros [r H]. exists (x :: r).
  eapply perm_trans; [apply Permutation_sym, Permutation_middle|].
  apply perm_skip, H.
Qed.

Lemma selected_from_filter (p : scene -> bool) (l : list scene) :
  selected_from (filter p l) l.
Proof.
  induction l as [|x l IH]; simpl; [apply selected_from_refl|].
  destruct (p x); [apply selected_from_cons|apply selected_from_skip]; exact IH.
Qed.

Lemma selected_from_accepted (target_duration current : Q) (l : list scene) :
  selected_from (accepted target_duration current l) l.
Proof.
  revert current. induction l as [|x l IH]; intro current; simpl.
  - apply selected_from_refl.
  - destruct (Qlt_bool _ _); [apply selected_from_skip, IH|].
    apply selected_from_cons.
    destruct (Qle_bool _ _); [exists l; apply Permutation_refl|apply IH].
Qed.

Lemma selected_from_NoDup (l1 l2 : list scene) :
  selected_from l1 l2 -> NoDup l2 -> NoDup l1.
Proof.
  intros [r H] Hnd. eapply NoDup_app_remove_r.
  eapply Permutation_NoDup; [apply Permutation_sym, H|exact Hnd].
Qed.

Lemma selected_from_length (l1 l2 : list scene) :
  selected_from l1 l2 -> (length l1 <= length l2)%nat.
Proof.
  intros [r H]. apply Permutation_length in H. rewrite length_app in H. lia.
Qed.

Lemma flat_map_ext_in {A B} (f g : A -> list B) (l : list A) :
  (forall x, In x l -> f x = g x) -> flat_map f l = flat_map g l.
Proof.
  intro H. induction l as [|x l IH]; [reflexivity|].
  simpl. rewrite (H x) by (left; reflexivity).
  rewrite IH; [reflexivity|]. intros y Hy. apply H. right. exact Hy.
Qed.

Lemma partition_add (s : scene) (l : list scene) (order : list string) :
  NoDup order -> In (get_action_type s) order ->
  Permutation (s :: flat_map (fun c => of_type c l) order)
    (flat_map (fun c => of_type c (s :: l)) order).
Proof.
  induction order as [|c order IH]; intros Hnd Hin; [destruct Hin|].
  inversion Hnd as [|? ? Hc Hnd']; subst.
  simpl. rewrite of_type_cons.
  destruct (String.eqb (get_action_type s) c) eqn:E.
  - apply String.eqb_eq in E. subst c. simpl. apply perm_skip.
    apply Permutation_app_head.
    rewrite (flat_map_ext_in (fun c => of_type c (s :: l)) (fun c => of_type c l)).
    + apply Permutation_refl.
    + intros c' Hc'. rewrite of_type_cons.
      destruct (String.eqb (get_action_type s) c') eqn:E'; [|reflexivity].
      apply String.eqb_eq in E'. subst c'. contradiction.
  - simpl. destruct Hin as [Hin|Hin].
    + subst c. rewrite String.eqb_refl in E. discriminate E.
    + eapply perm_trans; [apply Permutation_middle|].
      apply Permutation_app_head, IH; assumption.
Qed.

Lemma flat_map_nil {A B} (l : list A) : flat_map (fun _ : A => @nil B) l = [].
Proof. induction l as [|x l IH]; [reflexivity|exact IH]. Qed.

(** A list is, up to order, its categories laid side by side. *)
Lemma partition_by_type (l : list scene) (order : list string) :
  NoDup order -> (forall x, In x l -> In (get_action_type x) order) ->
  Permutation l (flat_map (fun c => of_type c l) order).
Proof.
  intros Hnd. induction l as [|s l IH]; intro Hin.
  - unfold of_type. simpl. rewrite flat_map_nil. constructor.
  - eapply perm_trans; [|apply partition_add; [exact Hnd|apply Hin; left; reflexivity]].
    apply perm_skip, IH. intros x Hx. apply Hin. right. exact Hx.
Qed.

Lemma slice_to_from {A} (k : Z) (l : list A) : slice_to k l ++ slice_from k l = l.
Proof.
  unfold slice_to, slice_from. destruct (0 <=? k)%Z; apply firstn_skipn.
Qed.

Lemma flat_map_app_perm {A} (f g : A -> list scene) (l : list A) :
  Permutation (flat_map (fun x => f x ++ g x) l) (flat_map f l ++ flat_map g l).
Proof.
  induction l as [|x l IH]; simpl; [constructor|].
  rewrite <- !app_assoc. apply Permutation_app_head.
  eapply perm_trans; [apply Permutation_app_head, IH|].
  rewrite !app_assoc. apply Permutation_app_tail, Permutation_app_comm.
Qed.

Lemma flat_map_perm {A} (f g : A -> list scene) (l : list A) :
  (forall x, Permutation (f x) (g x)) -> Permutation (flat_map f l) (flat_map g l).
Proof.
  intro H. induction l as [|x l IH]; simpl; [constructor|].
  apply Permutation_app; [apply H|exact IH].
Qed.

Lemma selected_from_flat_map {A} (f g : A -> list scene) (l : list A) :
  (forall x, selected_from (f x) (g x)) -> selected_from (flat_map f l) (flat_map g l).
Proof.
  intro H. induction l as [|x l IH]; simpl; [apply selected_from_refl|].
  destruct (H x) as [r1 H1]. destruct IH as [r2 H2].
  exists (r1 ++ r2).
  eapply perm_trans; [|apply Permutation_app; [exact H1|exact H2]].
  rewrite <- !app_assoc. apply Permutation_app_head.
  rewrite !app_assoc. apply Permutation_app_tail, Permutation_app_comm.
Qed.

Lemma diversity_selected_from (scenes : list scene) (max_per_type : option Z)
    (min_per_type : Z) :
  selected_from (ensure_action_diversity scenes max_per_type min_per_type) scenes.
Proof.
  rewrite ensure_action_diversity_spec. unfold phase_a, phase_b.
  set (m := resolve_max_per_type scenes max_per_type min_per_type).
  set (order := discovery_order scenes).
  set (G := fun c => sorted_desc get_action_confidence (of_type c scenes)).
  apply selected_from_trans with (flat_map G order).
  2:{ apply selected_from_perm.
      eapply perm_trans;
        [|apply Permutation_sym, (partition_by_type scenes order)].
      - apply flat_map_perm. intro c. apply Permutation_sym, sorted_desc_perm.
      - apply first_seen_NoDup.
      - intros x Hx. apply discovery_order_In, in_map, Hx. }
  apply selected_from_trans
    with (flat_map (fun c => floor_of min_per_type scenes c
                             ++ (if (0 <? m - min_per_type)%Z
                                 then surplus_of (m - min_per_type) min_per_type scenes c
                                 else [])) order).
  - apply selected_from_perm.
    eapply perm_trans; [|apply Permutation_sym, flat_map_app_perm].
    apply Permutation_app_head.
    eapply perm_trans; [apply Permutation_sym, sorted_desc_perm|].
    destruct (0 <? m - min_per_type)%Z; [apply Permutation_refl|].
    rewrite flat_map_nil. constructor.
  - apply selected_from_flat_map. intro c. unfold floor_of, surplus_of. fold (G c).
    rewrite <- (slice_to_from min_per_type (G c)) at 3.
    destruct (0 <? m - min_per_type)%Z.
    + exists (slice_from (m - min_per_type) (slice_from min_per_type (G c))).
      rewrite <- app_assoc, slice_to_from. apply Permutation_refl.
    + rewrite app_nil_r. apply selected_from_app.
Qed.

(** X7. The balancer takes its output out of its input: the output
    together with the scenes it leaves behind is the input up to order.
    No scene is invented or repeated, the output is never longer than the
    input, and an input without repeated records gives an output without
    repeated records. *)
Theorem diversity_no_duplicates (scenes : list scene) (max_per_type : option Z)
    (min_per_type : Z) :
  let out := ensure_action_diversity scenes max_per_type min_per_type in
  (exists dropped, Permutation (out ++ dropped) scenes)
  /\ (length out <= length scenes)%nat
  /\ (NoDup scenes -> NoDup out).
Proof.
  intro out.
  pose proof (diversity_selected_from scenes max_per_type min_per_type) as H.
  split; [exact H|]. split.
  - apply selected_from_length, H.
  - apply selected_from_NoDup, H.
Qed.

Lemma select_selected_from (scenes : list scene)
    (target_duration min_confidence min_duration max_duration : Q)
    (ensure_diversity : bool) (max_per_type : option Z) :
  selected_from
    (select_sequences_for_supercut scenes target_duration min_confidence
       min_duration max_duration ensure_diversity max_per_type)
    scenes.
Proof.
  unfold select_sequences_for_supercut, select_state.
  eapply selected_from_trans; [|apply (selected_from_filter
    (keeps min_confidence min_duration max_duration) scenes)].
  fold (filter_action_scenes scenes min_confidence min_duration max_duration).
  destruct (filter_action_scenes scenes _ _ _) as [|y l];
    [apply selected_from_refl|].
  rewrite pack_loop_accepted by reflexivity. simpl.
  eapply selected_from_trans; [apply selected_from_accepted|].
  destruct ensure_diversity.
  - eapply selected_from_trans; [apply diversity_selected_from|].
    apply selected_from_perm, Permutation_sym, sorted_desc_perm.
  - apply selected_from_perm, Permutation_sym, sorted_desc_perm.
Qed.

(** X8. The pipeline never selects a scene twice: the selection together
    with the scenes it leaves out is the input up to order, so it is never
    longer than the input and has no repeated record when the input has
    none. *)
Theorem select_no_duplicates (scenes : list scene)
    (target_duration min_confidence min_duration max_duration : Q)
    (ensure_diversity : bool) (max_per_type : option Z) :
  let selection :=
    select_sequences_for_supercut scenes target_duration min_confidence
      min_duration max_duration ensure_diversity max_per_type in
  (exists rest, Permutation (selection ++ rest) scenes)
  /\ (length selection <= length scenes)%nat
  /\ (NoDup scenes -> NoDup selection).
Proof.
  intro selection.
  pose proof (select_selected_from scenes target_duration min_confidence min_duration
                max_duration ensure_diversity max_per_type) as H.
  split; [exact H|]. split.
  - apply selected_from_length, H.
  - apply selected_from_NoDup, H.
Qed.

(** ** The windows of a long scene *)




Lemma windows_from_contiguous (end_time : Q) (fuel : nat) (current_time : Q) :
  (window_fuel current_time end_time <= fuel)%nat ->
  exists covered_to,
    contiguous current_time (windows_from fuel current_time end_time) covered_to
    /\ end_time - 1 <= covered_to
    /\ current_time <= covered_to
    /\ (current_time <= end_time -> covered_to <= end_time).
Proof.
  revert current_time. induction fuel as [|fuel IH]; intros current_time Hf.
  - exists current_time. simpl.
    destruct (Qlt_bool current_time (end_time - 1)) eqn:E.
    + apply Qlt_bool_iff, window_fuel_decreases in E. lia.
    + apply Qlt_bool_false_iff in E. simpl. repeat split; try lra.
  - simpl. destruct (Qlt_bool current_time (end_time - 1)) eqn:E.
    + pose proof E as E'. apply Qlt_bool_iff in E'.
      pose proof (window_fuel_decreases _ _ E') as Hdec.
      destruct (IH (py_min (current_time + 5) end_time)) as (to & Hc & H1 & H2 & H3);
        [lia|].
      exists to. simpl. split; [split; [reflexivity|exact Hc]|].
      destruct (py_min_cases (current_time + 5) end_time) as [[Hm Em]|[Hm Em]];
        rewrite Em in *; repeat split; try lra; intro; apply H3; lra.
    + apply Qlt_bool_false_iff in E. exists current_time. simpl.
      repeat split; try lra.
Qed.

(** X12. The windows of a scene follow one another without gap or
    overlap, starting at the scene's start; they stop at most one second
    before the scene's end, and not after it when the scene does not end
    before it starts. *)
Theorem windows_contiguous (start_time end_time : Q) :
  exists covered_to,
    contiguous start_time (windows start_time end_time) covered_to
    /\ end_time - 1 <= covered_to
    /\ (start_time <= end_time -> covered_to <= end_time).
Proof.
  destruct (windows_from_contiguous end_time (window_fuel start_time end_time)
              start_time (Nat.le_refl _)) as (to & H1 & H2 & _ & H3).
  exists to. repeat split; assumption.
Qed.

(** ** classify_action: the class-name mapping *)

Lemma prefix_chars (sub s : string) (ch : ascii) :
  String.prefix sub s = true ->
  In ch (list_ascii_of_string sub) -> In ch (list_ascii_of_string s).
Proof.
  revert s. induction sub as [|a sub IH]; intros s H Hin; [destruct Hin|].
  destruct s as [|b s]; [discriminate H|].
  simpl in H. destruct (ascii_dec a b) as [->|]; [|discriminate H].
  simpl in *. destruct Hin as [Hin|Hin]; [left; exact Hin|right; apply IH; assumption].
Qed.

Lemma str_in_chars (sub s : string) (ch : ascii) :
  str_in sub s = true ->
  In ch (list_ascii_of_string sub) -> In ch (list_ascii_of_string s).
Proof.
  induction s as [|b s IH]; intros H Hin.
  - cbn [str_in] in H. rewrite orb_false_r in H. eapply prefix_chars; eassumption.
  - cbn [str_in] in H. apply orb_true_iff in H. destruct H as [H|H].
    + eapply prefix_chars; eassumption.
    + simpl. right. apply IH; assumption.
Qed.

Lemma list_ascii_app (s1 s2 : string) :
  list_ascii_of_string (s1 ++ s2)
  = list_ascii_of_string s1 ++ list_ascii_of_string s2.
Proof.
  induction s1 as [|a s1 IH]; [reflexivity|]. simpl. rewrite IH. reflexivity.
Qed.

Lemma in_alphabet_In (ch : ascii) : In ch class_alphabet -> in_alphabet ch = true.
Proof.
  intro H. unfold in_alphabet. apply existsb_exists.
  exists ch. split; [exact H|apply Ascii.eqb_refl].
Qed.

Lemma uint_chars (d : Decimal.uint) (ch : ascii) :
  In ch (list_ascii_of_string (NilEmpty.string_of_uint d)) -> In ch class_alphabet.
Proof.
  induction d; simpl; intro H;
    try (destruct H as [<-|H]; [vm_compute; tauto|apply IHd, H]).
  destruct H.
Qed.

Lemma class_name_chars (class_idx : Z) (ch : ascii) :
  In ch (list_ascii_of_string (class_name class_idx)) -> in_alphabet ch = true.
Proof.
  intro H. apply in_alphabet_In. unfold class_name in H.
  rewrite list_ascii_app in H. apply in_app_or in H. destruct H as [H|H].
  - vm_compute in H. vm_compute. tauto.
  - assert (Hu : forall d, In ch (list_ascii_of_string (NilZero.string_of_uint d)) ->
                           In ch class_alphabet).
    { intros d Hd. destruct d; try (apply (uint_chars _ _ Hd)).
      vm_compute in Hd. vm_compute. tauto. }
    unfold NilZero.string_of_int in H.
    destruct (Z.to_int class_idx) as [d|d].
    + apply (Hu d), H.
    + cbn [list_ascii_of_string] in H.
      destruct H as [<-|H]; [vm_compute; tauto|apply (Hu d), H].
Qed.

Lemma foreign_not_in (keyword name : string) :
  (forall ch, In ch (list_ascii_of_string name) -> in_alphabet ch = true) ->
  foreign keyword = true -> str_in keyword name = false.
Proof.
  intros Hname Hf. destruct (str_in keyword name) eqn:E; [|reflexivity].
  unfold foreign in Hf. apply existsb_exists in Hf. destruct Hf as (ch & Hin & Hch).
  apply (str_in_chars _ _ ch E), Hname in Hin. rewrite Hin in Hch. discriminate Hch.
Qed.

Lemma no_matching_category (name : string) (categories : list (string * list string)) :
  (forall ch, In ch (list_ascii_of_string name) -> in_alphabet ch = true) ->
  forallb (fun c => forallb foreign (snd c)) categories = true ->
  matching_category name categories = None.
Proof.
  intros Hname. induction categories as [|[category keywords] rest IH]; intro H;
    [reflexivity|].
  simpl in *. apply andb_true_iff in H. destruct H as [Hk Hrest].
  assert (E : existsb (fun keyword => str_in keyword name) keywords = false).
  { clear - Hname Hk. induction keywords as [|k ks IHk]; [reflexivity|].
    simpl in *. apply andb_true_iff in Hk. destruct Hk as [H1 H2].
    rewrite (foreign_not_in k name Hname H1). simpl. apply IHk, H2. }
  rewrite E. apply IH, Hrest.
Qed.

(** No keyword of [ACTION_CATEGORIES] occurs in a class name. *)
Lemma class_name_matches_nothing (class_idx : Z) :
  matching_category (class_name class_idx) ACTION_CATEGORIES = None.
Proof.
  apply no_matching_category; [apply class_name_chars|reflexivity].
Qed.

Lemma score_classes_zero (top : list (Z * Q)) :
  score_classes top = map (fun c => (fst c, 0)) ACTION_CATEGORIES.
Proof.
  unfold score_classes.
  generalize (map (fun c : string * list string => (fst c, 0)) ACTION_CATEGORIES).
  induction top as [|cp top IH]; intro scores; [reflexivity|].
  cbn [fold_left]. rewrite class_name_matches_nothing. apply IH.
Qed.

Lemma classify_action_reports_no_action_aux
    (top5 : string -> Q -> Q -> option (list (Z * Q))) (path : string) (t0 t1 : Q) :
  Recognition.classify_action top5 path t0 t1
  = Returned (match top5 path t0 t1 with
              | Some _ => no_action
              | None => unknown_action
              end).
Proof.
  unfold Recognition.classify_action.
  destruct (top5 path t0 t1) as [top|]; [|reflexivity].
  rewrite score_classes_zero. reflexivity.
Qed.

(** X13. Whatever the model answers, [classify_action] reports no action:
    when frames were extracted the result is category chase with
    confidence 0.0, [is_action] false and six scores of 0.0, because no
    keyword of [ACTION_CATEGORIES] occurs in a name of the form
    [class_<index>]; without frames it is the unknown result, which has no
    ['all_scores']. It never raises. *)
Theorem classify_action_reports_no_action
    (top5 : string -> Q -> Q -> option (list (Z * Q))) (path : string) (t0 t1 : Q) :
  Recognition.classify_action top5 path t0 t1
  = Returned (match top5 path t0 t1 with
              | Some _ => no_action
              | None => unknown_action
              end).
Proof.
  unfold Recognition.classify_action.
  destruct (top5 path t0 t1) as [top|]; [|reflexivity].
  rewrite score_classes_zero. reflexivity.
Qed.

(** ** analyze_scene with the class's own classifier *)

Section Recognised.

Variable top5 : string -> Q -> Q -> option (list (Z * Q)).

Lemma classify_all_spec (path : string) (segments : list (Q * Q)) :
  Recognition.classify_all top5 path segments
  = Returned (map (fun seg => match top5 path (fst seg) (snd seg) with
                              | Some _ => no_action
                              | None => unknown_action
                              end) segments).
Proof.
  induction segments as [|seg rest IH]; [reflexivity|].
  simpl. rewrite classify_action_reports_no_action_aux, IH. reflexivity.
Qed.

End Recognised.

Lemma reported_no_action (top5 : string -> Q -> Q -> option (list (Z * Q)))
    (path : string) (segments : list (Q * Q)) (r : Recognition.result_dict) :
  In r (map (fun seg => match top5 path (fst seg) (snd seg) with
                        | Some _ => no_action
                        | None => unknown_action
                        end) segments) ->
  Recognition.res_is_action r = false /\ Recognition.res_confidence r = 0.
Proof.
  intro H. apply in_map_iff in H. destruct H as (seg & <- & _).
  destruct (top5 path (fst seg) (snd seg)); split; reflexivity.
Qed.

Lemma py_max_In {A} (key : A -> Q) (l : list A) (best : A) :
  py_max key l = Returned best -> In best l.
Proof.
  destruct l as [|x l]; [discriminate|].
  simpl. intros [= <-]. apply max_from_In.
Qed.

Lemma not_action_rejected (s : scene) (scenes : list scene)
    (min_confidence min_duration max_duration : Q) :
  is_action_scene s = Some false ->
  ~ In s (filter_action_scenes scenes min_confidence min_duration max_duration).
Proof.
  intros Hs Hin. apply filter_action_scenes_In in Hin.
  destruct Hin as [_ [Hflag _]].
  unfold get_is_action_scene in Hflag. rewrite Hs in Hflag. discriminate Hflag.
Qed.

Lemma analyze_scene_flags (top5 : string -> Q -> Q -> option (list (Z * Q)))
    (path : string) (scene_info s' : scene) :
  Recognition.analyze_scene top5 path scene_info = Returned s' ->
  is_action_scene s' = Some false /\ action_confidence s' = Some 0.
Proof.
  unfold Recognition.analyze_scene.
  destruct (start_time scene_info) as [t0|]; [|discriminate].
  destruct (end_time scene_info) as [t1|]; [|discriminate].
  destruct (duration scene_info) as [d|]; [|discriminate].
  destruct (Qlt_bool 10 d).
  - rewrite classify_all_spec.
    destruct (py_max _ _) as [best|e] eqn:E; [|discriminate].
    intros [= <-]. simpl.
    apply py_max_In, reported_no_action in E. destruct E as [-> ->].
    split; reflexivity.
  - rewrite classify_action_reports_no_action_aux.
    destruct (top5 path t0 t1); simpl; [|discriminate].
    intros [= <-]. split; reflexivity.
Qed.

(** X14. A scene that [analyze_scene] returns is never marked as action:
    its [is_action_scene] is False and its [action_confidence] 0.0,
    whatever the model answered, so [filter_action_scenes] rejects it for
    every choice of thresholds. *)
Theorem analyzed_scene_never_action
    (top5 : string -> Q -> Q -> option (list (Z * Q)))
    (path : string) (scene_info s' : scene) :
  Recognition.analyze_scene top5 path scene_info = Returned s' ->
  is_action_scene s' = Some false
  /\ action_confidence s' = Some 0
  /\ forall scenes min_confidence min_duration max_duration,
       ~ In s' (filter_action_scenes scenes min_confidence min_duration max_duration).
Proof.
  intro H. apply analyze_scene_flags in H. destruct H as [Hf Hc].
  split; [exact Hf|]. split; [exact Hc|].
  intros scenes min_confidence min_duration max_duration.
  apply not_action_rejected, Hf.
Qed.

Lemma analyzed_scene_never_action_witness :
  exists s',
    Recognition.analyze_scene (fun _ _ _ => Some [(17%Z, 9 # 10)]) "movie.mp4" long_scene
    = Returned s'
    /\ is_action_scene s' = Some false.
Proof.
  eexists. split; [reflexivity|].
  apply (analyzed_scene_never_action (fun _ _ _ => Some [(17%Z, 9 # 10)])
           "movie.mp4" long_scene).
  reflexivity.
Defined.

(** X15. How [analyze_scene] ends. It returns exactly when the scene has
    [start_time], [end_time] and [duration] and either is longer than 10
    seconds with [start_time < end_time - 1] (at least one window), or is
    at most 10 seconds long and frames could be extracted. It raises
    [KeyError('all_scores')] exactly for a scene of at most 10 seconds
    whose frames could not be extracted, and [ValueError] (max of an empty
    list) exactly for a scene with [duration > 10] and
    [end_time - 1 <= start_time]. *)
Theorem analyze_scene_outcomes
    (top5 : string -> Q -> Q -> option (list (Z * Q)))
    (path : string) (scene_info : scene) :
  ((exists s', Recognition.analyze_scene top5 path scene_info = Returned s')
   <-> exists t0 t1 d,
         start_time scene_info = Some t0 /\ end_time scene_info = Some t1
         /\ duration scene_info = Some d
         /\ ((10 < d /\ t0 < t1 - 1) \/ (d <= 10 /\ top5 path t0 t1 <> None)))
  /\ (Recognition.analyze_scene top5 path scene_info = Raised (KeyError "all_scores")
      <-> exists t0 t1 d,
            start_time scene_info = Some t0 /\ end_time scene_info = Some t1
            /\ duration scene_info = Some d
            /\ d <= 10 /\ top5 path t0 t1 = None)
  /\ ((exists msg, Recognition.analyze_scene top5 path scene_info
                   = Raised (ValueError msg))
      <-> exists t0 t1 d,
            start_time scene_info = Some t0 /\ end_time scene_info = Some t1
            /\ duration scene_info = Some d
            /\ 10 < d /\ t1 - 1 <= t0).
Proof.
  unfold Recognition.analyze_scene.
  destruct (start_time scene_info) as [t0|].
  2:{ repeat split; try (intros [? H]; discriminate H); try discriminate;
        intros (? & ? & ? & H & _); discriminate H. }
  destruct (end_time scene_info) as [t1|].
  2:{ repeat split; try (intros [? H]; discriminate H); try discriminate;
        intros (? & ? & ? & _ & H & _); discriminate H. }
  destruct (duration scene_info) as [d|].
  2:{ repeat split; try (intros [? H]; discriminate H); try discriminate;
        intros (? & ? & ? & _ & _ & H & _); discriminate H. }
  destruct (Qlt_bool 10 d) eqn:Ed.
  - apply Qlt_bool_iff in Ed.
    rewrite classify_all_spec, windows_unfold.
    destruct (Qlt_bool t0 (t1 - 1)) eqn:Ew.
    + apply Qlt_bool_iff in Ew. cbn [map py_max].
      repeat split.
      * intros _. exists t0, t1, d. repeat split. left. split; assumption.
      * intros _. eexists. reflexivity.
      * discriminate.
      * intros (a & b & c & [= <-] & [= <-] & [= <-] & Hc & _). lra.
      * intros [msg H]. discriminate H.
      * intros (a & b & c & [= <-] & [= <-] & [= <-] & _ & Hc). lra.
    + apply Qlt_bool_false_iff in Ew. cbn [map py_max].
      repeat split.
      * intros [s' H]. discriminate H.
      * intros (a & b & c & [= <-] & [= <-] & [= <-] & [[_ Hc]|[Hc _]]); lra.
      * discriminate.
      * intros (a & b & c & [= <-] & [= <-] & [= <-] & Hc & _). lra.
      * intros _. exists t0, t1, d. repeat split; assumption.
      * intros _. eexists. reflexivity.
  - apply Qlt_bool_false_iff in Ed.
    rewrite classify_action_reports_no_action_aux.
    destruct (top5 path t0 t1) as [top|] eqn:Et; cbn [Recognition.res_all_scores
      no_action unknown_action].
    + repeat split.
      * intros _. exists t0, t1, d. repeat split. right. split; [exact Ed|].
        rewrite Et. discriminate.
      * intros _. eexists. reflexivity.
      * discriminate.
      * intros (a & b & c & [= <-] & [= <-] & [= <-] & _ & Hc).
        rewrite Et in Hc. discriminate Hc.
      * intros [msg H]. discriminate H.
      * intros (a & b & c & [= <-] & [= <-] & [= <-] & Hc & _). lra.
    + repeat split.
      * intros [s' H]. discriminate H.
      * intros (a & b & c & [= <-] & [= <-] & [= <-] & [[Hc _]|[_ Hc]]);
          [lra|rewrite Et in Hc; congruence].
      * intros _. exists t0, t1, d. repeat split; assumption.
      * intros [msg H]. discriminate H.
      * intros (a & b & c & [= <-] & [= <-] & [= <-] & Hc & _). lra.
Qed.

(** ** Scene information and the processing of a video *)

Lemma get_scene_info_from_length (i : Z) (scene_list : list (timecode * timecode)) :
  length (get_scene_info_from i scene_list) = length scene_list.
Proof.
  revert i. induction scene_list as [|b l IH]; intro i; [reflexivity|].
  simpl. rewrite IH. reflexivity.
Qed.


Lemma get_scene_info_from_times (i : Z) (scene_list : list (timecode * timecode))
    (s : scene) :
  In s (get_scene_info_from i scene_list) ->
  exists b,
    In b scene_list
    /\ start_time s = Some (get_seconds (fst b))
    /\ end_time s = Some (get_seconds (snd b))
    /\ duration s = Some (get_seconds (snd b) - get_seconds (fst b))
    /\ start_frame s = Some (get_frames (fst b))
    /\ end_frame s = Some (get_frames (snd b))
    /\ is_action_scene s = None /\ action_confidence s = None /\ action_type s = None.
Proof.
  revert i. induction scene_list as [|b l IH]; intros i H; [destruct H|].
  simpl in H. destruct H as [<-|H].
  - exists b. simpl. repeat split. left. reflexivity.
  - destruct (IH _ H) as (b' & Hb & Hrest). exists b'. split; [right; exact Hb|exact Hrest].
Qed.


Lemma Forall2_In_right {A B} (R : A -> B -> Prop) (l : list A) (l' : list B) (y : B) :
  Forall2 R l l' -> In y l' -> exists x, In x l /\ R x y.
Proof.
  induction 1 as [|x y' l l' Hxy H IH]; intro Hy; [destruct Hy|].
  destruct Hy as [<-|Hy].
  - exists x. split; [left; reflexivity|exact Hxy].
  - destruct (IH Hy) as (x' & Hx' & HR). exists x'. split; [right; exact Hx'|exact HR].
Qed.

Section Processing.

Variable top5 : string -> Q -> Q -> option (list (Z * Q)).

Lemma analyze_scene_consistent (path : string) (scene_info : scene) (t0 t1 : Q) (e : exn) :
  start_time scene_info = Some t0 -> end_time scene_info = Some t1 ->
  duration scene_info = Some (t1 - t0) ->
  Recognition.analyze_scene top5 path scene_info = Raised e ->
  e = KeyError "all_scores".
Proof.
  intros H0 H1 Hd. unfold Recognition.analyze_scene. rewrite H0, H1, Hd.
  destruct (Qlt_bool 10 (t1 - t0)) eqn:E.
  - apply Qlt_bool_iff in E.
    assert (Hw : Qlt_bool t0 (t1 - 1) = true) by (apply Qlt_bool_iff; lra).
    rewrite classify_all_spec, windows_unfold, Hw. cbn [map py_max]. discriminate.
  - rewrite classify_action_reports_no_action_aux.
    destruct (top5 path t0 t1); cbn [Recognition.res_all_scores no_action unknown_action];
      [discriminate|].
    intros [= <-]. reflexivity.
Qed.

Lemma analyze_scene_keeps_path (path : string) (scene_info s' : scene) :
  Recognition.analyze_scene top5 path scene_info = Returned s' ->
  video_path s' = video_path scene_info /\ scene_number s' = scene_number scene_info
  /\ start_time s' = start_time scene_info /\ end_time s' = end_time scene_info
  /\ duration s' = duration scene_info.
Proof.
  unfold Recognition.analyze_scene.
  destruct (start_time scene_info) as [t0|] eqn:E0; [|discriminate].
  destruct (end_time scene_info) as [t1|] eqn:E1; [|discriminate].
  destruct (duration scene_info) as [d|] eqn:Ed; [|discriminate].
  destruct (Qlt_bool 10 d).
  - destruct (Recognition.classify_all top5 path (windows t0 t1)) as [results|];
      [|discriminate].
    destruct (py_max _ _); [|discriminate].
    intros [= <-]. simpl. repeat split; assumption.
  - destruct (Recognition.classify_action top5 path t0 t1) as [r|]; [|discriminate].
    destruct (Recognition.res_all_scores r); [|discriminate].
    intros [= <-]. simpl. repeat split; assumption.
Qed.

Lemma analyze_all_returned (path : string) (scene_info processed : list scene) :
  analyze_all top5 path scene_info = Returned processed ->
  Forall2 (fun s s' => Recognition.analyze_scene top5 path s = Returned s')
    scene_info processed.
Proof.
  revert processed. induction scene_info as [|s l IH]; intros processed H.
  - simpl in H. injection H as <-. constructor.
  - simpl in H.
    destruct (Recognition.analyze_scene top5 path s) as [s'|] eqn:E; [|discriminate].
    destruct (analyze_all top5 path l) as [out|]; [|discriminate].
    injection H as <-. constructor; [exact E|apply IH; reflexivity].
Qed.

Lemma analyze_all_raised (path : string) (scene_info : list scene) (e : exn) :
  analyze_all top5 path scene_info = Raised e ->
  exists s, In s scene_info /\ Recognition.analyze_scene top5 path s = Raised e.
Proof.
  induction scene_info as [|s l IH]; intro H; [discriminate H|].
  simpl in H.
  destruct (Recognition.analyze_scene top5 path s) as [s'|e'] eqn:E.
  - destruct (analyze_all top5 path l) as [out|e'']; [discriminate|].
    injection H as ->. destruct (IH eq_refl) as (x & Hx & Hr).
    exists x. split; [right; exact Hx|exact Hr].
  - injection H as ->. exists s. split; [left; reflexivity|exact E].
Qed.

Lemma process_video_raised (v : video) (e : exn) :
  process_video top5 v = Raised e -> e = KeyError "all_scores".
Proof.
  unfold process_video. destruct (negb (added v)); [discriminate|].
  destruct (detected v) as [|b l] eqn:Ed; [discriminate|].
  intro H. apply analyze_all_raised in H. destruct H as (s & Hs & Hr).
  apply in_map_iff in Hs. destruct Hs as (s0 & <- & Hs0).
  apply get_scene_info_from_times in Hs0.
  destruct Hs0 as (b' & _ & H0 & H1 & Hd & _).
  eapply analyze_scene_consistent; [| |
    |exact Hr]; simpl; eassumption.
Qed.

Lemma process_video_returned (v : video) (processed : list scene) :
  process_video top5 v = Returned processed ->
  length processed = (if added v then length (detected v) else 0%nat)
  /\ forall s, In s processed ->
       is_action_scene s = Some false /\ action_confidence s = Some 0
       /\ video_path s = Some (path_of v).
Proof.
  unfold process_video. destruct (added v); cbn [negb].
  2:{ intros [= <-]. split; [reflexivity|intros s []]. }
  destruct (detected v) as [|b l] eqn:Ed.
  { intros [= <-]. split; [reflexivity|intros s []]. }
  intro H. apply analyze_all_returned in H. split.
  - apply Forall2_length in H. rewrite <- H, length_map.
    apply get_scene_info_from_length.
  - intros s' Hs'.
    destruct (Forall2_In_right _ _ _ _ H Hs') as (s0 & Hs0 & Hr).
    destruct (analyze_scene_flags _ _ _ _ Hr) as [Hf Hc].
    destruct (analyze_scene_keeps_path _ _ _ Hr) as [Hp _].
    split; [exact Hf|]. split; [exact Hc|].
    rewrite Hp. apply in_map_iff in Hs0. destruct Hs0 as (x & <- & _). reflexivity.
Qed.

(** X17. What [process_video] does with a video. When it returns, it
    returns one processed scene per detected scene (none for a video that
    was not accepted), each tagged with the video's path and none marked
    as action; it never fails for a missing key or an empty window list
    of a detected scene, because [get_scene_info] supplies times and
    [duration = end_time - start_time]: the only exception that can leave
    it is [KeyError('all_scores')]. *)
Theorem process_video_outcomes (v : video) :
  (forall e, process_video top5 v = Raised e -> e = KeyError "all_scores")
  /\ (forall processed, process_video top5 v = Returned processed ->
        length processed = (if added v then length (detected v) else 0%nat)
        /\ forall s, In s processed ->
             is_action_scene s = Some false /\ action_confidence s = Some 0
             /\ video_path s = Some (path_of v)).
Proof.
  split; [apply process_video_raised|apply process_video_returned].
Qed.

Variable render : list segment -> option string.

Lemma process_all_raised (videos : list video) (e : exn) :
  process_all top5 videos = Raised e -> e = KeyError "all_scores".
Proof.
  induction videos as [|v l IH]; [discriminate|].
  simpl. destruct (process_video top5 v) as [p|e'] eqn:E.
  - destruct (process_all top5 l) as [o|e'']; [discriminate|].
    intros [= <-]. apply IH. reflexivity.
  - intros [= <-]. eapply process_video_raised, E.
Qed.

Lemma process_all_returned (videos : list video) (processed : list scene) :
  process_all top5 videos = Returned processed ->
  forall s, In s processed -> is_action_scene s = Some false.
Proof.
  revert processed. induction videos as [|v l IH]; intros processed H s Hs.
  - simpl in H. injection H as <-. destruct Hs.
  - simpl in H. destruct (process_video top5 v) as [p|] eqn:E; [|discriminate].
    destruct (process_all top5 l) as [o|]; [|discriminate].
    injection H as <-. apply in_app_or in Hs. destruct Hs as [Hs|Hs].
    + eapply process_video_returned; eassumption.
    + eapply IH; [reflexivity|exact Hs].
Qed.

Lemma select_nothing (scenes : list scene)
    (target_duration min_confidence min_duration max_duration : Q)
    (ensure_diversity : bool) (max_per_type : option Z) :
  (forall s, In s scenes -> is_action_scene s = Some false) ->
  select_sequences_for_supercut scenes target_duration min_confidence
    min_duration max_duration ensure_diversity max_per_type = [].
Proof.
  intro H.
  destruct (select_sequences_for_supercut scenes target_duration min_confidence
              min_duration max_duration ensure_diversity max_per_type) as [|x l] eqn:E;
    [reflexivity|].
  assert (Hx : In x (x :: l)) by (left; reflexivity).
  rewrite <- E in Hx. apply select_In_filtered in Hx.
  assert (Hin : In x scenes).
  { unfold filter_action_scenes in Hx. apply filter_In in Hx. apply Hx. }
  exfalso.
  exact (not_action_rejected x scenes min_confidence min_duration max_duration
           (H x Hin) Hx).
Qed.

(** X18. With this classifier the application never produces a supercut:
    for every list of videos, every answer of scene detection and of the
    model, and every choice of parameters, [process_multiple_videos]
    returns None or raises [KeyError('all_scores')]; the editor's result is
    never returned. *)
Theorem never_a_supercut (videos : list video)
    (target_duration min_confidence min_duration max_duration : Q)
    (ensure_diversity : bool) :
  process_multiple_videos top5 render videos target_duration min_confidence
    min_duration max_duration ensure_diversity = Returned None
  \/ process_multiple_videos top5 render videos target_duration min_confidence
       min_duration max_duration ensure_diversity = Raised (KeyError "all_scores").
Proof.
  unfold process_multiple_videos.
  destruct (process_all top5 videos) as [processed|e] eqn:E.
  - left. destruct processed as [|s l]; [reflexivity|].
    unfold create_supercut.
    rewrite select_nothing; [reflexivity|].
    apply (process_all_returned _ _ E).
  - right. apply process_all_raised in E. rewrite E. reflexivity.
Qed.

End Processing.

(** ** filter_scenes_by_duration *)

Lemma filter_scenes_by_duration_returned (scene_info kept : list scene)
    (min_duration max_duration : Q) :
  filter_scenes_by_duration scene_info min_duration max_duration = Returned kept ->
  (forall s, In s scene_info -> duration s <> None)
  /\ kept = filter (fun s => Qle_bool min_duration (get_duration s)
                             && Qle_bool (get_duration s) max_duration) scene_info.
Proof.
  revert kept. induction scene_info as [|s l IH]; intros kept H.
  - simpl in H. injection H as <-. split; [intros s []|reflexivity].
  - simpl in H. destruct (duration s) as [d|] eqn:Ed; [|discriminate].
    destruct (filter_scenes_by_duration l min_duration max_duration) as [k|];
      [|discriminate].
    destruct (IH k eq_refl) as [Hall Hk]. injection H as <-. split.
    + intros x [<-|Hx]; [congruence|apply Hall, Hx].
    + simpl. unfold get_duration at 1 2. rewrite Ed. simpl. rewrite <- Hk. reflexivity.
Qed.

Lemma filter_scenes_by_duration_raised (scene_info : list scene)
    (min_duration max_duration : Q) (e : exn) :
  filter_scenes_by_duration scene_info min_duration max_duration = Raised e ->
  e = KeyError "duration" /\ exists s, In s scene_info /\ duration s = None.
Proof.
  induction scene_info as [|s l IH]; intro H; [discriminate H|].
  simpl in H. destruct (duration s) as [d|] eqn:Ed.
  - destruct (filter_scenes_by_duration l min_duration max_duration) as [k|e'];
      [discriminate|].
    injection H as ->. destruct (IH eq_refl) as [He (x & Hx & Hd)].
    split; [exact He|]. exists x. split; [right; exact Hx|exact Hd].
  - injection H as <-. split; [reflexivity|].
    exists s. split; [left; reflexivity|exact Ed].
Qed.

(** X19. [filter_scenes_by_duration] raises [KeyError('duration')] exactly
    when some scene has no duration; otherwise it returns, in order, the
    scenes whose duration lies in [[min_duration, max_duration]]. On the
    output of [get_scene_info] it never raises. *)
Theorem filter_scenes_by_duration_spec (scene_info : list scene)
    (min_duration max_duration : Q) :
  (filter_scenes_by_duration scene_info min_duration max_duration
   = Raised (KeyError "duration")
   <-> exists s, In s scene_info /\ duration s = None)
  /\ ((forall s, In s scene_info -> duration s <> None)
      <-> filter_scenes_by_duration scene_info min_duration max_duration
          = Returned (filter (fun s => Qle_bool min_duration (get_duration s)
                                       && Qle_bool (get_duration s) max_duration)
                        scene_info))
  /\ forall scene_list,
       filter_scenes_by_duration (get_scene_info scene_list) min_duration max_duration
       = Returned (filter (fun s => Qle_bool min_duration (get_duration s)
                                    && Qle_bool (get_duration s) max_duration)
                     (get_scene_info scene_list)).
Proof.
  assert (Hcases : forall l,
             (forall s, In s l -> duration s <> None) ->
             filter_scenes_by_duration l min_duration max_duration
             = Returned (filter (fun s => Qle_bool min_duration (get_duration s)
                                          && Qle_bool (get_duration s) max_duration) l)).
  { intros l Hall.
    destruct (filter_scenes_by_duration l min_duration max_duration) as [k|e] eqn:E.
    - apply filter_scenes_by_duration_returned in E. destruct E as [_ ->]. reflexivity.
    - apply filter_scenes_by_duration_raised in E. destruct E as [_ (x & Hx & Hd)].
      exfalso. apply (Hall x Hx Hd). }
  split; [|split].
  - split.
    + intro H. apply filter_scenes_by_duration_raised in H. apply H.
    + intros (x & Hx & Hd).
      destruct (filter_scenes_by_duration scene_info min_duration max_duration)
        as [k|e] eqn:E.
      * apply filter_scenes_by_duration_returned in E. destruct E as [Hall _].
        exfalso. apply (Hall x Hx Hd).
      * apply filter_scenes_by_duration_raised in E. destruct E as [-> _]. reflexivity.
  - split; [apply Hcases|].
    intro H. apply filter_scenes_by_duration_returned in H. apply H.
  - intro scene_list. apply Hcases. intros s Hs.
    unfold get_scene_info in Hs. apply get_scene_info_from_times in Hs.
    destruct Hs as (b & _ & _ & _ & Hd & _). rewrite Hd. discriminate.
Qed.

(** ** The transition loop *)

Lemma firstn_snoc {A} (l : list A) (k : nat) (x : A) :
  nth_error l k = Some x -> firstn (S k) l = firstn k l ++ [x].
Proof.
  revert k. induction l as [|y l IH]; intros k H.
  - destruct k; discriminate H.
  - destruct k as [|k].
    + simpl in H. injection H as <-. reflexivity.
    + simpl in H. rewrite firstn_cons, (IH k H). reflexivity.
Qed.

Section TransitionLoop.

Variable clip : Type.
Variables fadeout fadein : clip -> clip.

Lemma transition_fold (c0 : clip) (rest : list clip) (k : nat) :
  (k < length rest)%nat ->
  fold_left (transition_step clip fadeout fadein (c0 :: rest)) (seq 0 (S k)) (Some [])
  = Some (fadeout c0 :: map fadein (firstn (S k) rest)).
Proof.
  induction k as [|k IH]; intro Hk.
  - destruct rest as [|c1 rest]; [simpl in Hk; lia|]. reflexivity.
  - rewrite seq_S, fold_left_app, IH by lia.
    cbn [fold_left]. unfold transition_step.
    replace (0 + S k)%nat with (S k) by lia.
    replace (S k + 1)%nat with (S (S k)) by lia.
    change (nth_error (c0 :: rest) (S k)) with (nth_error rest k).
    change (nth_error (c0 :: rest) (S (S k))) with (nth_error rest (S k)).
    destruct (nth_error rest k) as [y|] eqn:Ey.
    2:{ apply nth_error_None in Ey. lia. }
    destruct (nth_error rest (S k)) as [x|] eqn:Ex.
    2:{ apply nth_error_None in Ex. lia. }
    unfold add_transition.
    change (nth_error [fadeout y; fadein x] 1) with (Some (fadein x)).
    cbn [Nat.eqb].
    rewrite (firstn_snoc rest (S k) x Ex), map_app. reflexivity.
Qed.

(** X20. The transition block of [create_supercut] keeps the number and
    the order of the clips. With transitions requested and at least two
    clips, the first clip gets the fade-out and every later clip the
    fade-in, and nothing else: no clip after the first is faded out. With
    transitions off, or fewer than two clips, the clips are unchanged. No
    index is out of range. *)
Theorem transitions_spec (add_transitions : bool) (clips : list clip) :
  exists out,
    apply_transitions clip fadeout fadein add_transitions clips = Some out
    /\ length out = length clips
    /\ out = match clips with
             | c0 :: (_ :: _) as rest =>
                 if add_transitions then fadeout c0 :: map fadein rest else clips
             | _ => clips
             end.
Proof.
  unfold apply_transitions.
  destruct add_transitions; cbn [andb].
  2:{ exists clips. repeat split. destruct clips as [|c0 [|c1 rest]]; reflexivity. }
  destruct clips as [|c0 [|c1 rest]].
  - exists []. repeat split.
  - exists [c0]. repeat split.
  - exists (fadeout c0 :: map fadein (c1 :: rest)).
    assert (E : (1 <? length (c0 :: c1 :: rest))%nat = true)
      by (apply Nat.ltb_lt; simpl; lia).
    rewrite E.
    replace (length (c0 :: c1 :: rest) - 1)%nat with (S (length rest))
      by (simpl; lia).
    rewrite (transition_fold c0 (c1 :: rest) (length rest)) by (simpl; lia).
    rewrite firstn_cons, firstn_all.
    split; [reflexivity|]. split; [|reflexivity].
    simpl. rewrite length_map. reflexivity.
Qed.

End TransitionLoop.

(** ** Ties between windows *)


Section Ties.

Variable classify_action : string -> Q -> Q -> classification.


End Ties.


(** * The packing loop in binary64 arithmetic

    The properties of the loop that depend on where [target_duration * 1.2]
    and [target_duration] fall are proved of [Binary64.pack_step], from the
    IEEE 754 specification of the primitive operations. *)

Import SpecFloat FloatOps FloatAxioms.
Open Scope float_scope.

(** ** Rounding never produces a NaN *)

Lemma shr_1_nonneg mrs : (0 <= shr_m mrs)%Z -> (0 <= shr_m (shr_1 mrs))%Z.
Proof.
  destruct mrs as [m r s]. simpl. destruct m as [|p|p]; [| |lia].
  - intros _. simpl. lia.
  - intros _. destruct p; simpl; lia.
Qed.

Lemma iter_pos_shr_1_nonneg p : forall mrs,
  (0 <= shr_m mrs)%Z -> (0 <= shr_m (iter_pos shr_1 p mrs))%Z.
Proof.
  induction p as [p IH|p IH|]; intros mrs H; simpl.
  - apply IH, IH, shr_1_nonneg, H.
  - apply IH, IH, H.
  - apply shr_1_nonneg, H.
Qed.

Lemma shr_record_of_loc_m m l : shr_m (shr_record_of_loc m l) = m.
Proof. destruct l as [|[]]; reflexivity. Qed.

Lemma shr_fexp_nonneg prec emax m e l :
  (0 <= m)%Z -> (0 <= shr_m (fst (shr_fexp prec emax m e l)))%Z.
Proof.
  intro H. unfold shr_fexp, shr.
  destruct (fexp prec emax (Zdigits2 m + e) - e)%Z; simpl;
    try (rewrite shr_record_of_loc_m; exact H).
  apply iter_pos_shr_1_nonneg. rewrite shr_record_of_loc_m. exact H.
Qed.

Lemma round_nearest_even_nonneg m l :
  (0 <= m)%Z -> (0 <= round_nearest_even m l)%Z.
Proof.
  intro H. unfold round_nearest_even. destruct l as [|[]]; try lia.
  destruct (Z.even m); lia.
Qed.

Lemma binary_round_aux_not_nan prec emax sx m e l :
  (0 <= m)%Z -> binary_round_aux prec emax sx m e l <> S754_nan.
Proof.
  intro H. unfold binary_round_aux.
  pose proof (shr_fexp_nonneg prec emax m e l H) as H1.
  destruct (shr_fexp prec emax m e l) as [mrs' e'] eqn:E1. simpl in H1.
  pose proof (shr_fexp_nonneg prec emax _ e' loc_Exact
                (round_nearest_even_nonneg _ (loc_of_shr_record mrs') H1)) as H2.
  destruct (shr_fexp prec emax _ e' loc_Exact) as [mrs'' e''] eqn:E2. simpl in H2.
  destruct (shr_m mrs'') as [|p|p]; [discriminate| |lia].
  destruct (e'' <=? emax - prec)%Z; discriminate.
Qed.

(** *** Comparison and NaN *)

Lemma is_nan_Prim2SF x : is_nan x = true <-> Prim2SF x = S754_nan.
Proof.
  unfold Prim2SF. destruct (is_nan x); split; try reflexivity; try discriminate.
  intro H. exfalso. revert H.
  destruct (is_zero x); [discriminate|].
  destruct (is_infinity x); [discriminate|].
  destruct (Z.frexp x) as [r ex].
  destruct (shr_fexp _ _ _ _ _) as [sh e'].
  destruct (shr_m sh); discriminate.
Qed.

Lemma not_nan_Prim2SF x : is_nan x = false <-> Prim2SF x <> S754_nan.
Proof.
  rewrite <- is_nan_Prim2SF. destruct (is_nan x); split; congruence.
Qed.

Lemma is_finite_Prim2SF x :
  is_finite x = true ->
  (exists s, Prim2SF x = S754_zero s) \/ (exists s m e, Prim2SF x = S754_finite s m e).
Proof.
  unfold is_finite, Prim2SF. destruct (is_nan x); [discriminate|].
  destruct (is_infinity x); [discriminate|]. intros _.
  destruct (is_zero x); [left; eauto|].
  destruct (Z.frexp x) as [r ex].
  destruct (shr_fexp _ _ _ _ _) as [sh e'].
  destruct (shr_m sh); eauto 6.
Qed.

Lemma SFadd_not_nan prec emax x y :
  x <> S754_nan ->
  ((exists s, y = S754_zero s) \/ (exists s m e, y = S754_finite s m e)) ->
  SFadd prec emax x y <> S754_nan.
Proof.
  intros Hx [[s ->]|(s & m & e & ->)].
  - destruct x as [sx|sx| |sx mx ex]; try congruence; simpl; try discriminate.
    destruct sx, s; discriminate.
  - destruct x as [sx|sx| |sx mx ex]; try congruence; simpl; try discriminate.
    unfold binary_normalize.
    destruct (_ + _)%Z; [discriminate| |];
      unfold binary_round; destruct (shl_align _ _ _);
      apply binary_round_aux_not_nan; lia.
Qed.

Lemma SFmul_not_nan_finite prec emax x s m e :
  x <> S754_nan -> SFmul prec emax x (S754_finite s m e) <> S754_nan.
Proof.
  intro Hx. destruct x as [sx|sx| |sx mx ex]; try congruence; simpl; try discriminate.
  apply binary_round_aux_not_nan. lia.
Qed.

Lemma SFcompare_antisym x y :
  SFcompare y x = option_map CompOpp (SFcompare x y).
Proof.
  destruct x as [sx|sx| |sx mx ex], y as [sy|sy| |sy my ey]; simpl;
    try reflexivity;
    try (destruct sx; reflexivity); try (destruct sy; reflexivity);
    try (destruct sx, sy; reflexivity).
  destruct sx, sy; simpl; try reflexivity;
    rewrite (Z.compare_antisym ex ey);
    destruct (ex ?= ey)%Z; simpl; try reflexivity.
  - pose proof (Pos.compare_cont_antisym mx my Eq) as H. simpl in H.
    rewrite <- H. destruct (Pos.compare_cont Eq mx my); reflexivity.
  - pose proof (Pos.compare_cont_antisym mx my Eq) as H. simpl in H.
    rewrite <- H. destruct (Pos.compare_cont Eq mx my); reflexivity.
Qed.

Lemma SFcompare_defined x y :
  x <> S754_nan -> y <> S754_nan -> SFcompare x y <> None.
Proof.
  intros Hx Hy.
  destruct x as [sx|sx| |sx mx ex], y as [sy|sy| |sy my ey]; simpl;
    congruence.
Qed.

(** [1.2], the overflow factor, is the finite positive binary64 value
    0x1.3333333333333p+0. *)
Lemma overflow_factor_Prim2SF :
  Prim2SF 1.2 = S754_finite false 5404319552844595 (-52).
Proof. reflexivity. Qed.

(** [not (y > x)] gives [x <= y] unless one of the two is a NaN. *)
Lemma not_gt_le (x y : float) :
  is_nan x = false -> is_nan y = false -> (y <? x) = false -> (x <=? y) = true.
Proof.
  rewrite !not_nan_Prim2SF, ltb_spec, leb_spec. unfold SFltb, SFleb.
  intros Hx Hy. rewrite (SFcompare_antisym (Prim2SF x) (Prim2SF y)).
  pose proof (SFcompare_defined _ _ Hx Hy) as Hd.
  destruct (SFcompare (Prim2SF x) (Prim2SF y)) as [[]|]; simpl; congruence.
Qed.

Lemma add_not_nan (x d : float) :
  is_nan x = false -> is_finite d = true -> is_nan (x + d) = false.
Proof.
  rewrite !not_nan_Prim2SF, add_spec. intros Hx Hd.
  apply SFadd_not_nan; [exact Hx|apply is_finite_Prim2SF, Hd].
Qed.

Lemma bound_not_nan (t : float) : is_nan t = false -> is_nan (t * 1.2) = false.
Proof.
  rewrite !not_nan_Prim2SF, mul_spec, overflow_factor_Prim2SF.
  apply SFmul_not_nan_finite.
Qed.

Lemma zero_Prim2SF : Prim2SF 0 = S754_zero false.
Proof. reflexivity. Qed.

Lemma zero_not_nan : is_nan 0 = false.
Proof. reflexivity. Qed.

Lemma nonneg_not_nan (t : float) : (0 <=? t) = true -> is_nan t = false.
Proof.
  rewrite leb_spec, not_nan_Prim2SF, zero_Prim2SF. unfold SFleb.
  destruct (Prim2SF t); simpl; congruence.
Qed.

(** A target that is not negative has a bound that is not negative. *)
Lemma nonneg_bound (t : float) : (0 <=? t) = true -> (t * 1.2 <? 0) = false.
Proof.
  rewrite leb_spec, ltb_spec, mul_spec, overflow_factor_Prim2SF, zero_Prim2SF.
  unfold SFleb, SFltb.
  destruct (Prim2SF t) as [s|s| |s m e]; simpl; try discriminate.
  - reflexivity.
  - destruct s; [discriminate|reflexivity].
  - destruct s; [discriminate|]. intros _. simpl.
    unfold binary_round_aux.
    destruct (shr_fexp _ _ _ _ _) as [mrs' e'].
    destruct (shr_fexp _ _ _ _ _) as [mrs'' e''].
    destruct (shr_m mrs''); try reflexivity.
    destruct (Z.leb _ _); reflexivity.
Qed.

(** Below a negative bound, nothing that is not negative fits. *)
Lemma negative_below_nonneg (b d : float) :
  (b <? 0) = true -> (0 <=? d) = true -> (b <? 0 + d) = true.
Proof.
  rewrite leb_spec, !ltb_spec, add_spec, zero_Prim2SF.
  unfold SFleb, SFltb.
  destruct (Prim2SF b) as [sb|sb| |sb mb eb], (Prim2SF d) as [sd|sd| |sd md ed];
    simpl; try discriminate; try destruct sb; try destruct sd; simpl;
    try discriminate; reflexivity.
Qed.

(** ** The loop *)

Lemma pack64_loop_cons {A} (dur : A -> option float) (t : float) (s : A) l st :
  Binary64.pack_loop dur t (s :: l) st
  = Binary64.pack_loop dur t l (Binary64.pack_step dur t st s).
Proof. reflexivity. Qed.

Lemma pack64_loop_app {A} (dur : A -> option float) (t : float) l1 l2 st :
  Binary64.pack_loop dur t (l1 ++ l2) st
  = Binary64.pack_loop dur t l2 (Binary64.pack_loop dur t l1 st).
Proof. unfold Binary64.pack_loop. apply fold_left_app. Qed.

Lemma pack64_step_stopped {A} (dur : A -> option float) (t : float) st s :
  Binary64.stopped st = true -> Binary64.pack_step dur t st s = st.
Proof. intro H. unfold Binary64.pack_step. rewrite H. reflexivity. Qed.

Lemma pack64_loop_stopped {A} (dur : A -> option float) (t : float) l : forall st,
  Binary64.stopped st = true -> Binary64.pack_loop dur t l st = st.
Proof.
  induction l as [|s l IH]; intros st H; [reflexivity|].
  rewrite pack64_loop_cons, pack64_step_stopped by exact H. apply IH, H.
Qed.

Lemma total64_app {A} (dur : A -> option float) l s :
  Binary64.total_duration dur (l ++ [s])
  = Binary64.total_duration dur l + Binary64.get_duration dur s.
Proof. unfold Binary64.total_duration. rewrite fold_left_app. reflexivity. Qed.

Lemma app_tail_split {A} (l p q : list A) (s : A) :
  l ++ [s] = p ++ q -> q <> [] -> exists q', q = q' ++ [s] /\ l = p ++ q'.
Proof.
  intros H Hq. destruct (exists_last Hq) as (q' & x & ->).
  rewrite app_assoc in H. apply app_inj_tail in H. destruct H as [H ->].
  exists q'. split; [reflexivity|exact H].
Qed.

Lemma pack64_init_inv {A} (dur : A -> option float) (t : float) :
  Binary64.pack_inv dur t Binary64.pack_init.
Proof.
  unfold Binary64.pack_inv. simpl. repeat split; try congruence.
  intros p q H Hp. destruct p; [congruence|discriminate].
Qed.

Lemma pack64_step_inv {A} (dur : A -> option float) (t : float) st s :
  Binary64.pack_inv dur t st -> Binary64.pack_inv dur t (Binary64.pack_step dur t st s).
Proof.
  intros H. unfold Binary64.pack_step.
  destruct (Binary64.stopped st) eqn:Est; [exact H|].
  destruct (t * 1.2 <? Binary64.current_duration st + Binary64.get_duration dur s) eqn:Egt;
    [exact H|].
  destruct H as (Hsum & Hb & Hgo & Hstop & Hpre).
  unfold Binary64.pack_inv. cbn [Binary64.final_selection Binary64.current_duration Binary64.stopped].
  repeat split.
  - rewrite total64_app, Hsum. reflexivity.
  - intros _. exact Egt.
  - intros H _. exact H.
  - intro H. exact H.
  - intros p q H Hp Hq.
    destruct (app_tail_split _ _ _ _ H Hq) as (q' & -> & Hl).
    destruct q' as [|y q'].
    + rewrite app_nil_r in Hl. subst p. rewrite <- Hsum. apply Hgo; [exact Est|exact Hp].
    + apply (Hpre p (y :: q') Hl Hp). discriminate.
Qed.

Lemma pack64_loop_inv {A} (dur : A -> option float) (t : float) l : forall st,
  Binary64.pack_inv dur t st -> Binary64.pack_inv dur t (Binary64.pack_loop dur t l st).
Proof.
  induction l as [|s l IH]; intros st H; [exact H|].
  rewrite pack64_loop_cons. apply IH, pack64_step_inv, H.
Qed.

Lemma pack64_inv {A} (dur : A -> option float) (t : float) l :
  Binary64.pack_inv dur t (Binary64.pack dur t l).
Proof. apply pack64_loop_inv, pack64_init_inv. Qed.

Lemma pack64_step_not_nan {A} (dur : A -> option float) (t : float) st s :
  is_finite (Binary64.get_duration dur s) = true ->
  is_nan (Binary64.current_duration st) = false ->
  is_nan (Binary64.current_duration (Binary64.pack_step dur t st s)) = false.
Proof.
  intros Hd Hn. unfold Binary64.pack_step.
  destruct (Binary64.stopped st); [exact Hn|].
  destruct (_ <? _); [exact Hn|]. simpl. apply add_not_nan; assumption.
Qed.

Lemma pack64_loop_not_nan {A} (dur : A -> option float) (t : float) l : forall st,
  (forall s, In s l -> is_finite (Binary64.get_duration dur s) = true) ->
  is_nan (Binary64.current_duration st) = false ->
  is_nan (Binary64.current_duration (Binary64.pack_loop dur t l st)) = false.
Proof.
  induction l as [|s l IH]; intros st Hd Hn; [exact Hn|].
  rewrite pack64_loop_cons. apply IH.
  - intros x Hx. apply Hd. right. exact Hx.
  - apply pack64_step_not_nan; [apply Hd; left; reflexivity|exact Hn].
Qed.

Lemma pack64_nothing_fits {A} (dur : A -> option float) (t : float) l :
  (t * 1.2 <? 0) = true ->
  (forall s, In s l -> (0 <=? Binary64.get_duration dur s) = true) ->
  Binary64.pack dur t l = Binary64.pack_init.
Proof.
  intros Hb. unfold Binary64.pack. induction l as [|s l IH]; intro Hd; [reflexivity|].
  rewrite pack64_loop_cons.
  assert (E : Binary64.pack_step dur t Binary64.pack_init s = Binary64.pack_init).
  { unfold Binary64.pack_step. simpl.
    rewrite (negative_below_nonneg _ _ Hb (Hd s (or_introl eq_refl))). reflexivity. }
  rewrite E. apply IH. intros x Hx. apply Hd. right. exact Hx.
Qed.

Lemma pack64_loop_extends {A} (dur : A -> option float) (t : float) l : forall st,
  exists rest,
    Binary64.final_selection (Binary64.pack_loop dur t l st)
    = Binary64.final_selection st ++ rest.
Proof.
  induction l as [|s l IH]; intro st.
  - exists []. rewrite app_nil_r. reflexivity.
  - rewrite pack64_loop_cons. destruct (IH (Binary64.pack_step dur t st s)) as [rest Hr].
    rewrite Hr. unfold Binary64.pack_step.
    destruct (Binary64.stopped st); [eauto|].
    destruct (_ <? _); [eauto|]. simpl. rewrite <- app_assoc. eauto.
Qed.

(** ** The loop at its thresholds

    Scenes are given by the value of their ['duration'] entry. *)

(** Target 9.0, durations 3.2 then 7.6: [3.2 + 7.6] is
    10.800000000000001 and [9.0 * 1.2] is 10.799999999999999, so the
    second scene is skipped. *)
Example overflow_threshold_rounded :
  9 * 1.2 = 10.799999999999999
  /\ 3.2 + 7.6 = 10.800000000000001
  /\ Binary64.final_selection (Binary64.pack Some 9 [3.2; 7.6]) = [3.2]
  /\ Binary64.current_duration (Binary64.pack Some 9 [3.2; 7.6]) = 3.2.
Proof. repeat split; reflexivity. Qed.

(** Target 59.1, durations 15.5, 25.3, 18.3, 9.4: the total after three
    scenes is 59.099999999999994, below the target, so the loop goes on
    and accepts the fourth. *)
Example target_threshold_rounded :
  15.5 + 25.3 + 18.3 = 59.099999999999994
  /\ Binary64.final_selection (Binary64.pack Some 59.1 [15.5; 25.3; 18.3; 9.4])
     = [15.5; 25.3; 18.3; 9.4]
  /\ Binary64.stopped (Binary64.pack Some 59.1 [15.5; 25.3; 18.3; 9.4]) = true.
Proof. repeat split; reflexivity. Qed.

(** The three-scene scenario after filter and rank: fight (20 s), then
    chase (15 s), target 30: both accepted, total 35, stopped. *)
Example scenario_binary64 :
  Binary64.pack Some 30 [20; 15]
  = {| Binary64.final_selection := [20; 15];
       Binary64.current_duration := 35;
       Binary64.stopped := true |}.
Proof. reflexivity. Qed.

(** A NaN duration is accepted, since every comparison with it is false,
    and makes the total a NaN, which is not [<=] any bound. *)
Example nan_duration_accepted :
  Binary64.final_selection (Binary64.pack Some 10 [nan; 5]) = [nan; 5]
  /\ is_nan (Binary64.current_duration (Binary64.pack Some 10 [nan; 5])) = true
  /\ (Binary64.current_duration (Binary64.pack Some 10 [nan; 5]) <=? 10 * 1.2) = false
  /\ (10 * 1.2 <? Binary64.current_duration (Binary64.pack Some 10 [nan; 5])) = false.
Proof. repeat split; reflexivity. Qed.

(** C1 (amended). For every list the packing loop walks and every
    [target_duration], with Python's float operations (binary64):
    - the total the function reports is the sum of the durations of the
      selection, added left to right from [0.0];
    - when [target_duration >= 0], or when at least one scene is selected,
      the total is not above [target_duration * 1.2]; it is
      [<= target_duration * 1.2] when moreover [target_duration] is not a
      NaN and every duration is finite;
    - when [target_duration * 1.2 < 0] and no duration is negative, nothing
      is selected and the total [0.0] is above the bound;
    - in the loop, a scene is skipped, leaving the state as it was and the
      walk running on the scenes that follow, exactly when the running
      total plus its duration is above [target_duration * 1.2]; otherwise
      it is appended and its duration added. *)
Theorem packing_bound (scene : Type) (duration : scene -> option float)
    (target_duration : float) (selected_scenes : list scene) :
  let st := Binary64.pack duration target_duration selected_scenes in
  let selection := Binary64.final_selection st in
  let achieved := Binary64.current_duration st in
  let bound := target_duration * 1.2 in
  achieved = Binary64.total_duration duration selection
  /\ ((0 <=? target_duration) = true \/ selection <> [] ->
      (bound <? achieved) = false
      /\ (is_nan target_duration = false ->
          (forall s, In s selected_scenes ->
             is_finite (Binary64.get_duration duration s) = true) ->
          (achieved <=? bound) = true))
  /\ ((bound <? 0) = true ->
      (forall s, In s selected_scenes ->
         (0 <=? Binary64.get_duration duration s) = true) ->
      selection = [] /\ (bound <? achieved) = true)
  /\ (forall st s rest, Binary64.stopped st = false ->
        let total := Binary64.current_duration st + Binary64.get_duration duration s in
        ((bound <? total) = true ->
         Binary64.pack_step duration target_duration st s = st
         /\ Binary64.pack_loop duration target_duration (s :: rest) st
            = Binary64.pack_loop duration target_duration rest st)
        /\ ((bound <? total) = false ->
            Binary64.final_selection (Binary64.pack_step duration target_duration st s)
            = Binary64.final_selection st ++ [s]
            /\ Binary64.current_duration (Binary64.pack_step duration target_duration st s)
               = total)).
Proof.
  intros st selection achieved bound.
  pose proof (pack64_inv duration target_duration selected_scenes)
    as (Hsum & Hb & _).
  fold st in Hsum, Hb. fold selection in Hsum, Hb. fold achieved in Hsum, Hb.
  fold bound in Hb.
  split; [exact Hsum|]. split; [|split].
  - intro H.
    assert (Hle : (bound <? achieved) = false).
    { destruct selection as [|x sel] eqn:Es.
      - destruct H as [H|H]; [|congruence].
        rewrite Hsum. apply nonneg_bound, H.
      - apply Hb. discriminate. }
    split; [exact Hle|]. intros Hn Hd.
    apply not_gt_le; [|apply bound_not_nan, Hn|exact Hle].
    apply pack64_loop_not_nan; [exact Hd|reflexivity].
  - intros Hneg Hd.
    assert (E : st = Binary64.pack_init) by (apply pack64_nothing_fits; assumption).
    subst selection achieved. rewrite E. split; [reflexivity|exact Hneg].
  - intros st0 s rest Hst total. split; intro H.
    + assert (E : Binary64.pack_step duration target_duration st0 s = st0).
      { unfold Binary64.pack_step. rewrite Hst. fold total. fold bound. rewrite H.
        reflexivity. }
      split; [exact E|]. rewrite pack64_loop_cons, E. reflexivity.
    + unfold Binary64.pack_step. rewrite Hst. fold total. fold bound. rewrite H.
      split; reflexivity.
Qed.

(** C1 as stated fails for a negative target: target -10, one chase
    scene of 15 s with confidence 0.85. The scene passes the filter
    (0.5, 3, 60) and is the list the loop walks; [0.0 + 15.0 > -12.0], so
    it is skipped, nothing is selected, and the total [0.0] is above the
    bound [-10 * 1.2 = -12.0]. *)
Lemma packing_bound_negative_target :
  rank_scenes_by_action_intensity
    (filter_action_scenes [sc "chase" (85 # 100) 15] (5 # 10) 3 60)
  = [sc "chase" (85 # 100) 15]
  /\ Binary64.final_selection (Binary64.pack Some (-10) [15]) = []
  /\ Binary64.current_duration (Binary64.pack Some (-10) [15]) = 0
  /\ -10 * 1.2 = -12
  /\ (Binary64.current_duration (Binary64.pack Some (-10) [15]) <=? -10 * 1.2) = false
  /\ (-10 * 1.2 <? Binary64.current_duration (Binary64.pack Some (-10) [15])) = true.
Proof. repeat split; reflexivity. Qed.

Lemma packing_bound_witness :
  (Binary64.current_duration (Binary64.pack Some 9 [3.2; 7.6]) <=? 9 * 1.2) = true.
Proof.
  pose proof (packing_bound float Some 9 [3.2; 7.6]) as H. cbv zeta in H.
  destruct H as (_ & H & _).
  apply H.
  - left. reflexivity.
  - reflexivity.
  - intros s [<-|[<-|[]]]; reflexivity.
Defined.

(** X9. The loop stops at the first accepted scene that brings the
    running total to the target: whenever the returned selection is cut
    in two non-empty parts, the durations of the first part, added left to
    right as the loop adds them, give a total that is not
    [>= target_duration]. *)
Theorem selection_stops_at_target (scene : Type) (duration : scene -> option float)
    (target_duration : float) (selected_scenes p q : list scene) :
  Binary64.final_selection (Binary64.pack duration target_duration selected_scenes)
  = p ++ q ->
  p <> [] -> q <> [] ->
  (target_duration <=? Binary64.total_duration duration p) = false.
Proof.
  intros H Hp Hq.
  pose proof (pack64_inv duration target_duration selected_scenes)
    as (_ & _ & _ & _ & Hpre).
  apply (Hpre p q H Hp Hq).
Qed.

Lemma selection_stops_at_target_witness :
  (59.1 <=? Binary64.total_duration Some [15.5; 25.3; 18.3]) = false.
Proof.
  apply (selection_stops_at_target float Some 59.1 [15.5; 25.3; 18.3; 9.4]
           [15.5; 25.3; 18.3] [9.4]).
  - reflexivity.
  - discriminate.
  - discriminate.
Defined.

(** X10. When the total reached is not [>= target_duration], the walk
    has examined every scene and passed over none that fitted: each scene
    of the input is in the selection, right after the scenes selected
    before its turn, unless adding its duration to their total was above
    [target_duration * 1.2]. *)
Theorem underfill_walks_every_scene (scene : Type) (duration : scene -> option float)
    (target_duration : float) (selected_scenes l1 l2 : list scene) (s : scene) :
  let st := Binary64.pack duration target_duration selected_scenes in
  let before := Binary64.final_selection (Binary64.pack duration target_duration l1) in
  (target_duration <=? Binary64.current_duration st) = false ->
  selected_scenes = l1 ++ s :: l2 ->
  (exists rest, Binary64.final_selection st = before ++ s :: rest)
  \/ (target_duration * 1.2
      <? Binary64.total_duration duration before + Binary64.get_duration duration s) = true.
Proof.
  intros st before Hunder ->.
  pose proof (pack64_inv duration target_duration (l1 ++ s :: l2)) as (_ & _ & _ & Hstop & _).
  fold st in Hstop.
  assert (Hgo : Binary64.stopped st = false).
  { destruct (Binary64.stopped st); [|reflexivity]. rewrite Hstop in Hunder by reflexivity.
    discriminate. }
  set (b := Binary64.pack duration target_duration l1).
  assert (Est : st = Binary64.pack_loop duration target_duration l2
                      (Binary64.pack_step duration target_duration b s)).
  { unfold st, Binary64.pack. rewrite pack64_loop_app, pack64_loop_cons. reflexivity. }
  assert (Hb : Binary64.stopped b = false).
  { destruct (Binary64.stopped b) eqn:Eb; [|reflexivity].
    rewrite pack64_step_stopped, pack64_loop_stopped in Est by exact Eb.
    rewrite Est, Eb in Hgo. discriminate. }
  pose proof (pack64_inv duration target_duration l1) as (Hsum & _).
  change (Binary64.current_duration b = Binary64.total_duration duration before) in Hsum.
  destruct (target_duration * 1.2
            <? Binary64.total_duration duration before + Binary64.get_duration duration s)
    eqn:Egt; [right; reflexivity|left].
  destruct (pack64_loop_extends duration target_duration l2
              (Binary64.pack_step duration target_duration b s)) as [rest Hr].
  rewrite <- Est in Hr. exists rest. rewrite Hr.
  unfold Binary64.pack_step. rewrite Hb, Hsum, Egt. simpl.
  rewrite <- app_assoc. reflexivity.
Qed.

Lemma underfill_walks_every_scene_witness :
  (exists rest,
     Binary64.final_selection (Binary64.pack Some 9 [3.2; 7.6])
     = Binary64.final_selection (Binary64.pack Some 9 [3.2]) ++ 7.6 :: rest)
  \/ (9 * 1.2
      <? Binary64.total_duration Some
           (Binary64.final_selection (Binary64.pack Some 9 [3.2]))
         + Binary64.get_duration Some 7.6) = true.
Proof.
  apply (underfill_walks_every_scene float Some 9 [3.2; 7.6] [3.2] [] 7.6).
  - reflexivity.
  - reflexivity.
Defined.
